(** * shapez.io: static map entities and the item ejector system

    A shallow embedding of
      - [StaticMapEntityComponent] (game/components/static_map_entity.js):
        constructor, [getTileSpaceBounds], the local/world transforms;
      - [ItemEjectorSystem] (game/systems/item_ejector.js): [update],
        [tryPassOverItem], [drawSingleEntity].

    JavaScript numbers that hold grid coordinates and angles are integers
    ([Z]); the slot progress, speeds and pixel positions are rationals ([Q]),
    of which the system uses the sum, the product, [min] and the order only.
    A failed [assert] and a property access on [undefined] both end the
    call: they are the [Thrown] outcome. *)

From Stdlib Require Import ZArith QArith Qminmax List String Bool Lia.
From Stdlib Require Import DecimalString Lqa.
Import ListNotations.

Local Open Scope Z_scope.

(** ** Outcomes of calls that may throw *)

Inductive Outcome (A : Type) : Type :=
| Ok (a : A)
| Thrown (msg : string).

Arguments Ok {A} a.
Arguments Thrown {A} msg.

Definition obind {A B : Type} (o : Outcome A) (k : A -> Outcome B) : Outcome B :=
  match o with
  | Ok a => k a
  | Thrown msg => Thrown msg
  end.

Definition isOk {A : Type} (o : Outcome A) : bool :=
  match o with
  | Ok _ => true
  | Thrown _ => false
  end.

(** [assert(cond, msg)] *)
Definition assert (cond : bool) (msg : string) : Outcome unit :=
  if cond then Ok tt else Thrown msg.

(** The text JavaScript concatenates for an integer. *)
Definition numberToString (n : Z) : string :=
  NilZero.string_of_int (Z.to_int n).

(** ** core/vector.js (the parts the two files use) *)

Module enumDirection.
Inductive t : Set := top | right | bottom | left.
End enumDirection.

Record Vector : Set := mkVector { x : Z; y : Z }.

Module Vector.

(** [a.add(b)] and [a.sub(b)] return a new vector; [a.addInplace(b)]
    overwrites [a], whose new value is what the model returns. *)
Definition add (a b : Vector) : Vector := mkVector (x a + x b) (y a + y b).
Definition sub (a b : Vector) : Vector := mkVector (x a - x b) (y a - y b).
Definition addInplace (a b : Vector) : Vector := mkVector (x a + x b) (y a + y b).

(** Modelled from the spec: [Vector.rotateFastMultipleOf90] of
    core/vector.js, which is not part of the sources at hand.  The spec
    describes "a fast multiple-of-90 rotation (no trigonometry; a 2x2
    integer rotation matrix selected by a 4-way switch)" that "fails/asserts
    if rotation is not a multiple of 90", and whose inverse is the rotation
    by "(360 - rotation) mod 360": the full turn 360 selects the same
    matrix as 0.  The sense of rotation is fixed by the spec's scenario in
    which 90 degrees takes "right" to "down" and the tile (1,0) to (0,1). *)
Definition rotateFastMultipleOf90 (v : Vector) (angle : Z) : Outcome Vector :=
  match angle with
  | 0 | 360 => Ok (mkVector (x v) (y v))
  | 90 => Ok (mkVector (- y v) (x v))
  | 180 => Ok (mkVector (- x v) (- y v))
  | 270 => Ok (mkVector (y v) (- x v))
  | _ => Thrown ("Invalid fast inplace rotation: " ++ numberToString angle)
  end.

(** Modelled from the spec: [Vector.transformDirectionFromMultipleOf90] of
    core/vector.js, not part of the sources at hand: "rotate a cardinal
    direction by the same angle (or its inverse), implemented as an index
    shift into the 4-direction cycle" top, right, bottom, left. *)
Definition shiftDirection (d : enumDirection.t) : enumDirection.t :=
  match d with
  | enumDirection.top => enumDirection.right
  | enumDirection.right => enumDirection.bottom
  | enumDirection.bottom => enumDirection.left
  | enumDirection.left => enumDirection.top
  end.

Definition transformDirectionFromMultipleOf90
    (direction : enumDirection.t) (angle : Z) : Outcome enumDirection.t :=
  match angle with
  | 0 | 360 => Ok direction
  | 90 => Ok (shiftDirection direction)
  | 180 => Ok (shiftDirection (shiftDirection direction))
  | 270 => Ok (shiftDirection (shiftDirection (shiftDirection direction)))
  | _ => Thrown ("Invalid angle: " ++ numberToString angle)
  end.

End Vector.

(** Modelled from the spec: the table [enumDirectionToVector] of
    core/vector.js, not part of the sources at hand: the "unit-vector
    lookup" of the cardinal directions, with "right" = (1,0) and "down" =
    (0,1) as in the spec's scenarios (the y axis points down). *)
Definition enumDirectionToVector (d : enumDirection.t) : Vector :=
  match d with
  | enumDirection.top => mkVector 0 (-1)
  | enumDirection.right => mkVector 1 0
  | enumDirection.bottom => mkVector 0 1
  | enumDirection.left => mkVector (-1) 0
  end.

(** ** core/rectangle.js: the four fields [new Rectangle(x, y, w, h)] sets *)

Record Rectangle : Set := mkRectangle { rx : Z; ry : Z; rw : Z; rh : Z }.

(** ** game/components/static_map_entity.js *)

Record StaticMapEntityComponent : Set := mkStaticMapEntityComponent {
  origin : Vector;
  tileSize : Vector;
  spriteKey : option string;
  rotation : Z;
  originalRotation : Z;
  silhouetteColor : option string
}.

Module StaticMapEntityComponent.

Definition getId : string := "StaticMapEntity".

(** The constructor's destructured parameter; an omitted field takes the
    default written in the parameter list. *)
Record Params : Set := mkParams {
  p_origin : option Vector;
  p_tileSize : option Vector;
  p_rotation : option Z;
  p_originalRotation : option Z;
  p_spriteKey : option string;
  p_silhouetteColor : option string
}.

Definition orDefault {A : Type} (o : option A) (d : A) : A :=
  match o with Some a => a | None => d end.

(** JavaScript's [%] truncates towards zero: [Z.rem]. *)
Definition constructor (p : Params) : Outcome StaticMapEntityComponent :=
  let origin := orDefault (p_origin p) (mkVector 0 0) in
  let tileSize := orDefault (p_tileSize p) (mkVector 1 1) in
  let rotation := orDefault (p_rotation p) 0 in
  let originalRotation := orDefault (p_originalRotation p) 0 in
  obind
    (assert (Z.rem rotation 90 =? 0)
       ("Rotation of static map entity must be multiple of 90 (was "
          ++ numberToString rotation ++ ")"))
    (fun _ =>
       Ok (mkStaticMapEntityComponent origin tileSize (p_spriteKey p)
             rotation originalRotation (p_silhouetteColor p))).

Definition getTileSpaceBounds (this : StaticMapEntityComponent) : Outcome Rectangle :=
  match rotation this with
  | 0 =>
      Ok (mkRectangle (x (origin this)) (y (origin this))
            (x (tileSize this)) (y (tileSize this)))
  | 90 =>
      Ok (mkRectangle (x (origin this) - y (tileSize this) + 1) (y (origin this))
            (y (tileSize this)) (x (tileSize this)))
  | 180 =>
      Ok (mkRectangle (x (origin this) - x (tileSize this) + 1)
            (y (origin this) - y (tileSize this) + 1)
            (x (tileSize this)) (y (tileSize this)))
  | 270 =>
      Ok (mkRectangle (x (origin this)) (y (origin this) - x (tileSize this) + 1)
            (y (tileSize this)) (x (tileSize this)))
  | _ => Thrown "Invalid rotation"
  end.

Definition applyRotationToVector (this : StaticMapEntityComponent) (vector : Vector)
  : Outcome Vector :=
  Vector.rotateFastMultipleOf90 vector (rotation this).

Definition unapplyRotationToVector (this : StaticMapEntityComponent) (vector : Vector)
  : Outcome Vector :=
  Vector.rotateFastMultipleOf90 vector (360 - rotation this).

Definition localDirectionToWorld (this : StaticMapEntityComponent)
    (direction : enumDirection.t) : Outcome enumDirection.t :=
  Vector.transformDirectionFromMultipleOf90 direction (rotation this).

Definition worldDirectionToLocal (this : StaticMapEntityComponent)
    (direction : enumDirection.t) : Outcome enumDirection.t :=
  Vector.transformDirectionFromMultipleOf90 direction (360 - rotation this).

Definition localTileToWorld (this : StaticMapEntityComponent) (localTile : Vector)
  : Outcome Vector :=
  obind (applyRotationToVector this localTile)
    (fun result => Ok (Vector.addInplace result (origin this))).

Definition worldToLocalTile (this : StaticMapEntityComponent) (worldTile : Vector)
  : Outcome Vector :=
  let localUnrotated := Vector.sub worldTile (origin this) in
  unapplyRotationToVector this localUnrotated.

End StaticMapEntityComponent.

(** The four rotations a placed building takes. *)
Definition validRotation (r : Z) : Prop := r = 0 \/ r = 90 \/ r = 180 \/ r = 270.

(** ** game/systems/item_ejector.js

    The belts, processors, underground belts, acceptors, the tile grid and
    the hub goals are collaborators whose code is elsewhere: an entity
    carries their methods, which read and change a store [World] that holds
    all state outside the ejector slots.  Queries ([getTileContent],
    [findMatchingSlot], [canAcceptItem], [canAcceptNewItem], the speed
    getters) only read the store; [takeNewItem], [tryTakeItem] and
    [tryAcceptExternalItem] may change it. *)

Record GlobalConfig : Set := mkGlobalConfig {
  gc_tileSize : Q;
  gc_physicsDeltaSeconds : Q
}.

Section ItemEjectorSystem.

Context {BaseItem World : Type}.

Record BeltComponent : Type := mkBeltComponent {
  canAcceptNewItem : World -> enumDirection.t -> bool;
  takeNewItem : BaseItem -> enumDirection.t -> World -> World
}.

Record ItemProcessorComponent : Type := mkItemProcessorComponent {
  tryTakeItem : BaseItem -> nat -> enumDirection.t -> World -> bool * World
}.

Record UndergroundBeltComponent : Type := mkUndergroundBeltComponent {
  tryAcceptExternalItem : BaseItem -> Q -> World -> bool * World
}.

(** What [findMatchingSlot] answers. *)
Record MatchingSlot : Set := mkMatchingSlot {
  index : nat;
  acceptedDirection : enumDirection.t
}.

Record ItemAcceptorComponent : Type := mkItemAcceptorComponent {
  findMatchingSlot : World -> Vector -> enumDirection.t -> option MatchingSlot;
  canAcceptItem : World -> nat -> BaseItem -> bool
}.

(** One ejector slot (game/components/item_ejector.js); [item = None] is
    the JavaScript [null]. *)
Record ItemEjectorSlot : Type := mkItemEjectorSlot {
  pos : Vector;
  direction : enumDirection.t;
  item : option BaseItem;
  progress : Q
}.

Record ItemEjectorComponent : Type := mkItemEjectorComponent {
  slots : list ItemEjectorSlot
}.

(** [entity.components]: an absent component reads [undefined]. *)
Record EntityComponents : Type := mkEntityComponents {
  ItemEjector : option ItemEjectorComponent;
  StaticMapEntity : option StaticMapEntityComponent;
  ItemAcceptor : option ItemAcceptorComponent;
  Belt : option BeltComponent;
  ItemProcessor : option ItemProcessorComponent;
  UndergroundBelt : option UndergroundBeltComponent
}.

Record Entity : Type := mkEntity {
  uid : nat;
  components : EntityComponents
}.

Record HubGoals : Type := mkHubGoals {
  getBeltBaseSpeed : World -> Q;
  getUndergroundBeltBaseSpeed : World -> Q
}.

Record GameRoot : Type := mkGameRoot {
  hubGoals : HubGoals;
  getTileContent : World -> Vector -> option Entity
}.

(** The calls the system makes on the grid and on a receiver, in the
    order it makes them; a receiver is named by its [uid]. *)
Inductive Call : Type :=
| CallGetTileContent (tile : Vector)
| CallFindMatchingSlot (receiver : nat) (localTile : Vector)
    (localDirection : enumDirection.t)
| CallCanAcceptItem (receiver : nat) (slotIndex : nat) (it : BaseItem)
| CallCanAcceptNewItem (receiver : nat) (localDirection : enumDirection.t)
    (result : bool)
| CallTakeNewItem (receiver : nat) (it : BaseItem)
    (localDirection : enumDirection.t)
| CallTryTakeItem (receiver : nat) (it : BaseItem) (slotIndex : nat)
    (localDirection : enumDirection.t) (result : bool)
| CallTryAcceptExternalItem (receiver : nat) (it : BaseItem) (speed : Q)
    (result : bool).

(** *** The monad of the system: store, call log, exceptions *)

Definition M (A : Type) : Type := World -> Outcome (A * World * list Call).

Definition ret {A : Type} (a : A) : M A := fun w => Ok (a, w, []).

Definition bind {A B : Type} (m : M A) (k : A -> M B) : M B :=
  fun w =>
    match m w with
    | Thrown msg => Thrown msg
    | Ok (a, w1, log1) =>
        match k a w1 with
        | Thrown msg => Thrown msg
        | Ok (b, w2, log2) => Ok (b, w2, log1 ++ log2)
        end
    end.

Definition liftOutcome {A : Type} (o : Outcome A) : M A :=
  fun w => match o with Ok a => Ok (a, w, []) | Thrown msg => Thrown msg end.

(** A read of the store that is not logged. *)
Definition reads {A : Type} (f : World -> A) : M A := fun w => Ok (f w, w, []).

(** A logged query: the store is read, not changed. *)
Definition query {A : Type} (f : World -> A) (c : A -> Call) : M A :=
  fun w => Ok (f w, w, [c (f w)]).

(** A logged call that may change the store. *)
Definition invoke {A : Type} (f : World -> A * World) (c : A -> Call) : M A :=
  fun w => let '(a, w') := f w in Ok (a, w', [c a]).

(** Reading a property of [undefined] throws a TypeError. *)
Definition deref {A : Type} (o : option A) (name : string) : M A :=
  match o with
  | Some a => ret a
  | None => fun _ => Thrown ("TypeError: " ++ name ++ " is undefined")
  end.

Fixpoint forEach {A B : Type} (f : A -> M B) (l : list A) : M (list B) :=
  match l with
  | [] => ret []
  | a :: l' => bind (f a) (fun b => bind (forEach f l') (fun bs => ret (b :: bs)))
  end.

Notation "x <- m ;; k" := (bind m (fun x => k))
  (at level 100, m at next level, right associativity).

(** The setters of the two fields [update] writes. *)
Definition setProgress (s : ItemEjectorSlot) (p : Q) : ItemEjectorSlot :=
  mkItemEjectorSlot (pos s) (direction s) (item s) p.

Definition setItem (s : ItemEjectorSlot) (i : option BaseItem) : ItemEjectorSlot :=
  mkItemEjectorSlot (pos s) (direction s) i (progress s).

Definition setSlots (e : Entity) (ss : list ItemEjectorSlot) : Entity :=
  let c := components e in
  mkEntity (uid e)
    (mkEntityComponents (Some (mkItemEjectorComponent ss)) (StaticMapEntity c)
       (ItemAcceptor c) (Belt c) (ItemProcessor c) (UndergroundBelt c)).

(** [a < b] on numbers *)
Definition Qltb (a b : Q) : bool := negb (Qle_bool b a).

Variable root : GameRoot.
Variable globalConfig : GlobalConfig.

(** A block of [tryPassOverItem] either returns from the function
    ([Some result]) or falls through to the next statement ([None]). *)
Definition passToBelt (it : BaseItem) (receiver : Entity)
    (localDirection : enumDirection.t) : M (option bool) :=
  match Belt (components receiver) with
  | Some beltComp =>
      accepts <- query (fun w => canAcceptNewItem beltComp w localDirection)
                   (CallCanAcceptNewItem (uid receiver) localDirection) ;;
      if accepts : bool then
        _ <- invoke (fun w => (tt, takeNewItem beltComp it localDirection w))
               (fun _ => CallTakeNewItem (uid receiver) it localDirection) ;;
        ret (Some true)
      else ret None
  | None => ret None
  end.

Definition passToItemProcessor (it : BaseItem) (receiver : Entity)
    (slotIndex : nat) (localDirection : enumDirection.t) : M (option bool) :=
  match ItemProcessor (components receiver) with
  | Some itemProcessorComp =>
      taken <- invoke (tryTakeItem itemProcessorComp it slotIndex localDirection)
                 (CallTryTakeItem (uid receiver) it slotIndex localDirection) ;;
      if taken : bool then ret (Some true) else ret None
  | None => ret None
  end.

Definition passToUndergroundBelt (it : BaseItem) (receiver : Entity)
  : M (option bool) :=
  match UndergroundBelt (components receiver) with
  | Some undergroundBeltCmop =>
      speed <- reads (getUndergroundBeltBaseSpeed (hubGoals root)) ;;
      taken <- invoke (tryAcceptExternalItem undergroundBeltCmop it speed)
                 (CallTryAcceptExternalItem (uid receiver) it speed) ;;
      if taken : bool then ret (Some true) else ret None
  | None => ret None
  end.

(** [block ;; rest] where [block] may have returned. *)
Definition orElse {A : Type} (block : M (option A)) (rest : M A) : M A :=
  returned <- block ;;
  match returned with
  | Some a => ret a
  | None => rest
  end.

Definition tryPassOverItem (it : BaseItem) (receiver : Entity)
    (slotIndex : nat) (localDirection : enumDirection.t) : M bool :=
  orElse (passToBelt it receiver localDirection)
    (orElse (passToItemProcessor it receiver slotIndex localDirection)
       (orElse (passToUndergroundBelt it receiver)
          (ret false))).

(** Lines 40-44 of [update]: where, and into which direction, a slot
    ejects. *)
Definition ejectTarget (staticComp : StaticMapEntityComponent)
    (ejectorSlot : ItemEjectorSlot) : Outcome (Vector * enumDirection.t) :=
  obind (StaticMapEntityComponent.localTileToWorld staticComp (pos ejectorSlot))
    (fun ejectSlotWsTile =>
  obind (StaticMapEntityComponent.localDirectionToWorld staticComp
           (direction ejectorSlot))
    (fun ejectSlotWsDirection =>
       let ejectSlotWsDirectionVector := enumDirectionToVector ejectSlotWsDirection in
       let ejectSlotTargetWsTile :=
         Vector.add ejectSlotWsTile ejectSlotWsDirectionVector in
       Ok (ejectSlotTargetWsTile, ejectSlotWsDirection))).

(** The body of the inner loop of [update]: one slot in one tick.  Every
    [continue] yields the slot as it stands at that point. *)
Definition updateSlot (progressGrowth : Q)
    (staticComp : option StaticMapEntityComponent)
    (ejectorSlot : ItemEjectorSlot) : M ItemEjectorSlot :=
  match item ejectorSlot with
  | None => ret ejectorSlot
  | Some ejectingItem =>
      let ejectorSlot :=
        setProgress ejectorSlot (Qmin 1 (progress ejectorSlot + progressGrowth)) in
      if Qltb (progress ejectorSlot) 1 then ret ejectorSlot
      else
        staticComp <- deref staticComp "staticComp" ;;
        target <- liftOutcome (ejectTarget staticComp ejectorSlot) ;;
        let '(ejectSlotTargetWsTile, ejectSlotWsDirection) := target in
        targetEntity <- query (fun w => getTileContent root w ejectSlotTargetWsTile)
                          (fun _ => CallGetTileContent ejectSlotTargetWsTile) ;;
        match targetEntity with
        | None => ret ejectorSlot
        | Some targetEntity =>
            match ItemAcceptor (components targetEntity) with
            | None => ret ejectorSlot
            | Some targetAcceptorComp =>
                targetStaticComp <-
                  deref (StaticMapEntity (components targetEntity))
                    "targetStaticComp" ;;
                localTile <-
                  liftOutcome (StaticMapEntityComponent.worldToLocalTile
                                 targetStaticComp ejectSlotTargetWsTile) ;;
                localDirection <-
                  liftOutcome (StaticMapEntityComponent.worldDirectionToLocal
                                 targetStaticComp ejectSlotWsDirection) ;;
                matchingSlot <-
                  query (fun w => findMatchingSlot targetAcceptorComp w
                                    localTile localDirection)
                    (fun _ => CallFindMatchingSlot (uid targetEntity)
                                localTile localDirection) ;;
                match matchingSlot with
                | None => ret ejectorSlot
                | Some matchingSlot =>
                    accepts <-
                      query (fun w => canAcceptItem targetAcceptorComp w
                                        (index matchingSlot) ejectingItem)
                        (fun _ => CallCanAcceptItem (uid targetEntity)
                                    (index matchingSlot) ejectingItem) ;;
                    if negb accepts then ret ejectorSlot
                    else
                      passed <- tryPassOverItem ejectingItem targetEntity
                                  (index matchingSlot)
                                  (acceptedDirection matchingSlot) ;;
                      if passed : bool then ret (setItem ejectorSlot None)
                      else ret ejectorSlot
                end
            end
        end
  end.

(** The body of the outer loop: the slots of one entity, in array order. *)
Definition updateEntity (progressGrowth : Q) (entity : Entity) : M Entity :=
  ejectorComp <- deref (ItemEjector (components entity)) "ejectorComp" ;;
  let staticComp := StaticMapEntity (components entity) in
  newSlots <- forEach (updateSlot progressGrowth staticComp) (slots ejectorComp) ;;
  ret (setSlots entity newSlots).

Definition update (allEntities : list Entity) : M (list Entity) :=
  effectiveBeltSpeed <- reads (getBeltBaseSpeed (hubGoals root)) ;;
  let progressGrowth :=
    ((effectiveBeltSpeed / (1 # 2)) * gc_physicsDeltaSeconds globalConfig)%Q in
  forEach (updateEntity progressGrowth) allEntities.

(** [ejectedItem.draw(worldX, worldY, parameters)] *)
Record DrawCall : Type := mkDrawCall {
  drawnItem : BaseItem;
  worldX : Q;
  worldY : Q
}.

Definition drawSlot (staticComp : option StaticMapEntityComponent)
    (slot : ItemEjectorSlot) : Outcome (list DrawCall) :=
  match item slot with
  | None => Ok []
  | Some ejectedItem =>
      match staticComp with
      | None => Thrown "TypeError: staticComp is undefined"
      | Some staticComp =>
          obind (Vector.rotateFastMultipleOf90 (pos slot) (rotation staticComp))
            (fun realPosition =>
          obind (Vector.transformDirectionFromMultipleOf90 (direction slot)
                   (rotation staticComp))
            (fun realDirection =>
               let realDirectionVector := enumDirectionToVector realDirection in
               let tileX :=
                 (inject_Z (x (origin staticComp)) + inject_Z (x realPosition)
                  + (1 # 2)
                  + inject_Z (x realDirectionVector) * (1 # 2) * progress slot)%Q in
               let tileY :=
                 (inject_Z (y (origin staticComp)) + inject_Z (y realPosition)
                  + (1 # 2)
                  + inject_Z (y realDirectionVector) * (1 # 2) * progress slot)%Q in
               let worldX := (tileX * gc_tileSize globalConfig)%Q in
               let worldY := (tileY * gc_tileSize globalConfig)%Q in
               Ok [mkDrawCall ejectedItem worldX worldY]))
      end
  end.

Fixpoint drawSlots (staticComp : option StaticMapEntityComponent)
    (ss : list ItemEjectorSlot) : Outcome (list DrawCall) :=
  match ss with
  | [] => Ok []
  | slot :: rest =>
      obind (drawSlot staticComp slot)
        (fun calls => obind (drawSlots staticComp rest)
                        (fun more => Ok (calls ++ more)))
  end.

Definition drawSingleEntity (entity : Entity) : Outcome (list DrawCall) :=
  match ItemEjector (components entity) with
  | None => Thrown "TypeError: ejectorComp is undefined"
  | Some ejectorComp =>
      drawSlots (StaticMapEntity (components entity)) (slots ejectorComp)
  end.

End ItemEjectorSystem.

(** ** Vocabulary of the properties *)

Definition validRotationParams (p : StaticMapEntityComponent.Params) : Prop :=
  validRotation (StaticMapEntityComponent.orDefault
                   (StaticMapEntityComponent.p_rotation p) 0).

(** Whether a tile lies inside a rectangle of tiles. *)
Definition containsTile (r : Rectangle) (v : Vector) : Prop :=
  rx r <= x v < rx r + rw r /\ ry r <= y v < ry r + rh r.

(** The three receiver kinds [tryPassOverItem] knows, in the order of its
    three blocks. *)
Inductive Capability : Set := BeltCapability | ItemProcessorCapability | UndergroundBeltCapability.

Definition priority (c : Capability) : nat :=
  match c with
  | BeltCapability => 0
  | ItemProcessorCapability => 1
  | UndergroundBeltCapability => 2
  end.

Section CallVocabulary.

Context {BaseItem World : Type}.

Definition capabilityOf (c : @Call BaseItem) : option Capability :=
  match c with
  | CallCanAcceptNewItem _ _ _ | CallTakeNewItem _ _ _ => Some BeltCapability
  | CallTryTakeItem _ _ _ _ _ => Some ItemProcessorCapability
  | CallTryAcceptExternalItem _ _ _ _ => Some UndergroundBeltCapability
  | _ => None
  end.

(** A call by which the receiver takes the item over. *)
Definition accepting (c : @Call BaseItem) : bool :=
  match c with
  | CallTakeNewItem _ _ _ => true
  | CallTryTakeItem _ _ _ _ result => result
  | CallTryAcceptExternalItem _ _ _ result => result
  | _ => false
  end.

Definition handedOver (c : @Call BaseItem) : option (nat * BaseItem) :=
  match c with
  | CallTakeNewItem receiver it _ => Some (receiver, it)
  | CallTryTakeItem receiver it _ _ true => Some (receiver, it)
  | CallTryAcceptExternalItem receiver it _ true => Some (receiver, it)
  | _ => None
  end.

Definition exposes (receiver : @Entity BaseItem World) (c : Capability) : bool :=
  match c with
  | BeltCapability =>
      match Belt (components receiver) with Some _ => true | None => false end
  | ItemProcessorCapability =>
      match ItemProcessor (components receiver) with Some _ => true | None => false end
  | UndergroundBeltCapability =>
      match UndergroundBelt (components receiver) with Some _ => true | None => false end
  end.

Definition calledOn (cap : Capability) (log : list (@Call BaseItem)) : bool :=
  existsb (fun c => match capabilityOf c with
                    | Some cap' => Nat.eqb (priority cap') (priority cap)
                    | None => false
                    end) log.

(** No call follows a call by which the receiver took the item. *)
Fixpoint stopsAtAccept (log : list (@Call BaseItem)) : bool :=
  match log with
  | [] => true
  | c :: rest =>
      (if accepting c then match rest with [] => true | _ :: _ => false end
       else true)
      && stopsAtAccept rest
  end.

(** The capability calls of the log come in the order Belt,
    ItemProcessor, UndergroundBelt. *)
Definition callPriority (c : @Call BaseItem) : nat :=
  match capabilityOf c with
  | Some cap => priority cap
  | None => 0
  end.

Fixpoint inPriorityOrder (log : list (@Call BaseItem)) : bool :=
  match log with
  | [] => true
  | c :: rest =>
      forallb (fun c' => Nat.leb (callPriority c) (callPriority c')) rest
      && inPriorityOrder rest
  end.

(** The capability [tryPassOverItem] meets first on a receiver. *)
Definition firstExposed (receiver : @Entity BaseItem World) : option Capability :=
  if exposes receiver BeltCapability then Some BeltCapability
  else if exposes receiver ItemProcessorCapability then Some ItemProcessorCapability
  else if exposes receiver UndergroundBeltCapability then Some UndergroundBeltCapability
  else None.

(** The first sentence of the receiver contract, as the specification
    words it: once the receiver exposes a capability, no call of a later
    capability appears in the handoff. *)
Definition claimedFirstExposedWins (receiver : @Entity BaseItem World)
    (log : list (@Call BaseItem)) : Prop :=
  forall earlier later,
    exposes receiver earlier = true ->
    (priority earlier < priority later)%nat ->
    calledOn later log = false.

(** The receiver side of the contract: a [try...] call that answers
    [false] leaves the store as it was. *)
Definition refusalKeepsStore (receiver : @Entity BaseItem World) : Prop :=
  (forall c, ItemProcessor (components receiver) = Some c ->
     forall it i d w, fst (tryTakeItem c it i d w) = false ->
                      snd (tryTakeItem c it i d w) = w)
  /\ (forall c, UndergroundBelt (components receiver) = Some c ->
        forall it speed w, fst (tryAcceptExternalItem c it speed w) = false ->
                           snd (tryAcceptExternalItem c it speed w) = w).

(** The five ways in which a slot whose item has arrived at the exit
    cannot hand it over. *)
Inductive Blocked (root : @GameRoot BaseItem World)
    (staticComp : StaticMapEntityComponent) (slot : @ItemEjectorSlot BaseItem)
    (it : BaseItem) (w : World) : Prop :=
| BlockedNoEntity tile d :
    ejectTarget staticComp slot = Ok (tile, d) ->
    getTileContent root w tile = None ->
    Blocked root staticComp slot it w
| BlockedNoAcceptor tile d target :
    ejectTarget staticComp slot = Ok (tile, d) ->
    getTileContent root w tile = Some target ->
    ItemAcceptor (components target) = None ->
    Blocked root staticComp slot it w
| BlockedNoMatchingSlot tile d target acceptor targetStatic localTile localDirection :
    ejectTarget staticComp slot = Ok (tile, d) ->
    getTileContent root w tile = Some target ->
    ItemAcceptor (components target) = Some acceptor ->
    StaticMapEntity (components target) = Some targetStatic ->
    StaticMapEntityComponent.worldToLocalTile targetStatic tile = Ok localTile ->
    StaticMapEntityComponent.worldDirectionToLocal targetStatic d = Ok localDirection ->
    findMatchingSlot acceptor w localTile localDirection = None ->
    Blocked root staticComp slot it w
| BlockedRefused tile d target acceptor targetStatic localTile localDirection ms :
    ejectTarget staticComp slot = Ok (tile, d) ->
    getTileContent root w tile = Some target ->
    ItemAcceptor (components target) = Some acceptor ->
    StaticMapEntity (components target) = Some targetStatic ->
    StaticMapEntityComponent.worldToLocalTile targetStatic tile = Ok localTile ->
    StaticMapEntityComponent.worldDirectionToLocal targetStatic d = Ok localDirection ->
    findMatchingSlot acceptor w localTile localDirection = Some ms ->
    canAcceptItem acceptor w (index ms) it = false ->
    Blocked root staticComp slot it w
| BlockedPassFailed tile d target acceptor targetStatic localTile localDirection ms
    w' log :
    ejectTarget staticComp slot = Ok (tile, d) ->
    getTileContent root w tile = Some target ->
    ItemAcceptor (components target) = Some acceptor ->
    StaticMapEntity (components target) = Some targetStatic ->
    StaticMapEntityComponent.worldToLocalTile targetStatic tile = Ok localTile ->
    StaticMapEntityComponent.worldDirectionToLocal targetStatic d = Ok localDirection ->
    findMatchingSlot acceptor w localTile localDirection = Some ms ->
    canAcceptItem acceptor w (index ms) it = true ->
    tryPassOverItem root it target (index ms) (acceptedDirection ms) w
      = Ok (false, w', log) ->
    Blocked root staticComp slot it w.

(** [n] ticks of one slot under a constant growth; the logs are
    concatenated. *)
Fixpoint repeatUpdateSlot (root : @GameRoot BaseItem World) (progressGrowth : Q)
    (staticComp : option StaticMapEntityComponent) (n : nat)
    (slot : @ItemEjectorSlot BaseItem) : @M BaseItem World (@ItemEjectorSlot BaseItem) :=
  match n with
  | O => ret slot
  | S n' =>
      bind (updateSlot root progressGrowth staticComp slot)
        (repeatUpdateSlot root progressGrowth staticComp n')
  end.

(** The draw position in tiles as the specification words it:
    "entityOrigin + rotate(localPosition) +
     rotate(localDirectionUnitVector) * 0.5 * progress". *)
Definition claimedDrawTile (staticComp : StaticMapEntityComponent)
    (realPosition realDirectionVector : Vector) (progress : Q) : Q * Q :=
  ((inject_Z (x (origin staticComp)) + inject_Z (x realPosition)
    + inject_Z (x realDirectionVector) * (1 # 2) * progress)%Q,
   (inject_Z (y (origin staticComp)) + inject_Z (y realPosition)
    + inject_Z (y realDirectionVector) * (1 # 2) * progress)%Q).

End CallVocabulary.

(** ** A small factory on which the properties are exercised

    Items are named by their key; the store is the ledger of the items the
    receivers have taken, newest first. *)

Definition Ledger : Type := list (nat * string).

Definition sampleConfig : GlobalConfig := mkGlobalConfig 32 (1 # 60).

Definition sampleBelt (receiver : nat) (free : bool) : @BeltComponent string Ledger :=
  mkBeltComponent
    (fun _ _ => free)
    (fun it _ w => (receiver, it) :: w).

Definition sampleProcessor (receiver : nat) (free : bool)
  : @ItemProcessorComponent string Ledger :=
  mkItemProcessorComponent
    (fun it _ _ w => if free then (true, (receiver, it) :: w) else (false, w)).

Definition sampleUnderground (receiver : nat) (free : bool)
  : @UndergroundBeltComponent string Ledger :=
  mkUndergroundBeltComponent
    (fun it _ w => if free then (true, (receiver, it) :: w) else (false, w)).

Definition sampleAcceptor : @ItemAcceptorComponent string Ledger :=
  mkItemAcceptorComponent
    (fun _ _ _ => Some (mkMatchingSlot 0 enumDirection.left))
    (fun _ _ _ => true).

Definition sampleStatic (origin : Vector) (rotation : Z) : StaticMapEntityComponent :=
  mkStaticMapEntityComponent origin (mkVector 1 1) None rotation rotation None.

(** A receiver on tile (1,0); each capability is absent ([None]), present
    and full ([Some false]) or present and free ([Some true]). *)
Definition sampleReceiver (belt processor underground : option bool)
  : @Entity string Ledger :=
  mkEntity 2
    (mkEntityComponents None (Some (sampleStatic (mkVector 1 0) 0))
       (Some sampleAcceptor)
       (option_map (sampleBelt 2) belt)
       (option_map (sampleProcessor 2) processor)
       (option_map (sampleUnderground 2) underground)).

Definition sampleRoot (receiver : option (@Entity string Ledger))
  : @GameRoot string Ledger :=
  mkGameRoot
    (mkHubGoals (fun _ => 3%Q) (fun _ => 4%Q))
    (fun _ tile => if (x tile =? 1) && (y tile =? 0) then receiver else None).

Definition sampleSlot (held : option string) (progress : Q) : @ItemEjectorSlot string :=
  mkItemEjectorSlot (mkVector 0 0) enumDirection.right held progress.

Definition sampleEmitter (held : option string) (progress : Q) : @Entity string Ledger :=
  mkEntity 1
    (mkEntityComponents (Some (mkItemEjectorComponent [sampleSlot held progress]))
       (Some (sampleStatic (mkVector 0 0) 0)) None None None None).

(** An emitter that was given no StaticMapEntity. *)
Definition sampleBareEmitter (held : option string) : @Entity string Ledger :=
  mkEntity 3
    (mkEntityComponents (Some (mkItemEjectorComponent [sampleSlot held 0]))
       None None None None None).

(** A 2x3 building placed at (5,7). *)
Definition sampleBuilding (rotation : Z) : StaticMapEntityComponent :=
  mkStaticMapEntityComponent (mkVector 5 7) (mkVector 2 3) None rotation 0 None.

Definition sampleParams (rotation originalRotation : Z) : StaticMapEntityComponent.Params :=
  StaticMapEntityComponent.mkParams (Some (mkVector 5 7)) (Some (mkVector 2 3))
    (Some rotation) (Some originalRotation) None None.

(** ** The rest of the two files

    [drawSpriteOnFullEntityBounds] talks to the canvas context and to the
    sprite; the calls it makes are what the model returns.  The angle the
    context is turned by is [Math_radians(rotation)] or its negation, kept
    as such: core/builtins.js is not among the sources. *)

Inductive CanvasAngle : Set :=
| Radians (degrees : Z)
| MinusRadians (degrees : Z).

Inductive CanvasCall : Set :=
| ContextTranslate (dx dy : Q)
| ContextRotate (angle : CanvasAngle)
| SpriteDrawCached (dx dy dw dh : Q) (clipping : bool).

(** [globalConfig.halfTileSize] is passed beside the configuration;
    [extrudePixels] and [clipping] default to 0 and true when omitted. *)
Definition drawSpriteOnFullEntityBounds (globalConfig : GlobalConfig)
    (halfTileSize : Q) (this : StaticMapEntityComponent)
    (extrudePixels : option Q) (clipping : option bool) : list CanvasCall :=
  let extrudePixels := StaticMapEntityComponent.orDefault extrudePixels 0%Q in
  let clipping := StaticMapEntityComponent.orDefault clipping true in
  let worldX := (inject_Z (x (origin this)) * gc_tileSize globalConfig)%Q in
  let worldY := (inject_Z (y (origin this)) * gc_tileSize globalConfig)%Q in
  if rotation this =? 0 then
    [SpriteDrawCached
       (worldX - extrudePixels * inject_Z (x (tileSize this)))%Q
       (worldY - extrudePixels * inject_Z (y (tileSize this)))%Q
       (gc_tileSize globalConfig * inject_Z (x (tileSize this))
        + 2 * extrudePixels * inject_Z (x (tileSize this)))%Q
       (gc_tileSize globalConfig * inject_Z (y (tileSize this))
        + 2 * extrudePixels * inject_Z (y (tileSize this)))%Q
       clipping]
  else
    let rotationCenterX := (worldX + halfTileSize)%Q in
    let rotationCenterY := (worldY + halfTileSize)%Q in
    [ContextTranslate rotationCenterX rotationCenterY;
     ContextRotate (Radians (rotation this));
     SpriteDrawCached
       (- halfTileSize - extrudePixels * inject_Z (x (tileSize this)))%Q
       (- halfTileSize - extrudePixels * inject_Z (y (tileSize this)))%Q
       (gc_tileSize globalConfig * inject_Z (x (tileSize this))
        + 2 * extrudePixels * inject_Z (x (tileSize this)))%Q
       (gc_tileSize globalConfig * inject_Z (y (tileSize this))
        + 2 * extrudePixels * inject_Z (y (tileSize this)))%Q
       false;
     ContextRotate (MinusRadians (rotation this));
     ContextTranslate (- rotationCenterX)%Q (- rotationCenterY)%Q].

(** The context call that undoes a context call. *)
Definition undoesCall (c : CanvasCall) : option CanvasCall :=
  match c with
  | ContextTranslate dx dy => Some (ContextTranslate (- dx)%Q (- dy)%Q)
  | ContextRotate (Radians d) => Some (ContextRotate (MinusRadians d))
  | ContextRotate (MinusRadians d) => Some (ContextRotate (Radians d))
  | SpriteDrawCached _ _ _ _ _ => None
  end.

Definition isContextCall (c : CanvasCall) : bool :=
  match c with
  | SpriteDrawCached _ _ _ _ _ => false
  | _ => true
  end.

(** The distance in tiles along the grid. *)
Definition tileDistance (a b : Vector) : Z :=
  Z.abs (x a - x b) + Z.abs (y a - y b).

Definition inFootprint (this : StaticMapEntityComponent) (localTile : Vector) : Prop :=
  0 <= x localTile < x (tileSize this) /\ 0 <= y localTile < y (tileSize this).

Section PassVocabulary.

Context {BaseItem World : Type}.

Definition isGridQuery (c : @Call BaseItem) : bool :=
  match c with
  | CallGetTileContent _ => true
  | _ => false
  end.

(** Every [takeNewItem] in a log comes right after a [canAcceptNewItem]
    of the same receiver and direction that answered true. *)
Fixpoint takesOnlyAfterAsking (previous : option (@Call BaseItem))
    (log : list (@Call BaseItem)) : bool :=
  match log with
  | [] => true
  | c :: rest =>
      match c with
      | CallTakeNewItem receiver _ d =>
          match previous with
          | Some (CallCanAcceptNewItem receiver' d' true) =>
              Nat.eqb receiver receiver'
              && match d, d' with
                 | enumDirection.top, enumDirection.top
                 | enumDirection.right, enumDirection.right
                 | enumDirection.bottom, enumDirection.bottom
                 | enumDirection.left, enumDirection.left => true
                 | _, _ => false
                 end
          | _ => false
          end
      | _ => true
      end
      && takesOnlyAfterAsking (Some c) rest
  end.

(** What a tick may do to a slot: nothing to an idle one; to one that holds
    an item, write the advanced progress and keep or clear the item. *)
Definition slotEvolves (progressGrowth : Q) (s s' : @ItemEjectorSlot BaseItem) : Prop :=
  pos s' = pos s
  /\ direction s' = direction s
  /\ match item s with
     | None => s' = s
     | Some it =>
         progress s' = Qmin 1 (progress s + progressGrowth)
         /\ (item s' = Some it \/ item s' = None)
     end.

Definition entityEvolves (progressGrowth : Q) (e e' : @Entity BaseItem World) : Prop :=
  uid e' = uid e
  /\ StaticMapEntity (components e') = StaticMapEntity (components e)
  /\ ItemAcceptor (components e') = ItemAcceptor (components e)
  /\ Belt (components e') = Belt (components e)
  /\ ItemProcessor (components e') = ItemProcessor (components e)
  /\ UndergroundBelt (components e') = UndergroundBelt (components e)
  /\ exists ejectorComp ejectorComp',
       ItemEjector (components e) = Some ejectorComp
       /\ ItemEjector (components e') = Some ejectorComp'
       /\ Forall2 (slotEvolves progressGrowth) (slots ejectorComp) (slots ejectorComp').

(** The growth [update] computes from the store it starts in. *)
Definition progressGrowthAt (root : @GameRoot BaseItem World)
    (globalConfig : GlobalConfig) (w : World) : Q :=
  (getBeltBaseSpeed (hubGoals root) w / (1 # 2)
   * gc_physicsDeltaSeconds globalConfig)%Q.

(** An emitter the pass can process: it has its two components and a
    rotation the transforms know. *)
Definition wellFormedEmitter (e : @Entity BaseItem World) : Prop :=
  exists ejectorComp staticComp,
    ItemEjector (components e) = Some ejectorComp
    /\ StaticMapEntity (components e) = Some staticComp
    /\ validRotation (rotation staticComp).

(** A grid on which every entity that accepts items is placed with a
    rotation the transforms know. *)
Definition wellFormedGrid (root : @GameRoot BaseItem World) : Prop :=
  forall w tile target acceptor,
    getTileContent root w tile = Some target ->
    ItemAcceptor (components target) = Some acceptor ->
    exists targetStatic,
      StaticMapEntity (components target) = Some targetStatic
      /\ validRotation (rotation targetStatic).

(** The items the slots of an entity, or of a list of entities, hold. *)
Definition holdsItem (s : @ItemEjectorSlot BaseItem) : bool :=
  match item s with
  | Some _ => true
  | None => false
  end.

Definition heldBy (e : @Entity BaseItem World) : nat :=
  match ItemEjector (components e) with
  | Some ejectorComp => List.length (filter holdsItem (slots ejectorComp))
  | None => 0
  end.

Definition heldByAll (es : list (@Entity BaseItem World)) : nat :=
  list_sum (List.map heldBy es).

Definition isCapabilityCall (c : @Call BaseItem) : bool :=
  match capabilityOf c with
  | Some _ => true
  | None => false
  end.

End PassVocabulary.

Section HandoffContract.

Context {BaseItem World : Type}.

Variable root : @GameRoot BaseItem World.

(** The handoff as the amended receiver contract words it, to be compared
    with [tryPassOverItem]: the capabilities are gone through in the fixed
    order; one the receiver does not expose is passed over; an exposed one is
    asked once, and its yes ends the handoff, while its no leads on to the
    next. *)
Definition priorityOrder : list Capability :=
  [BeltCapability; ItemProcessorCapability; UndergroundBeltCapability].

(** What asking one capability amounts to: [None] when the receiver does
    not expose it, else the answer, the store left and the calls made.  A
    Belt is asked with [canAcceptNewItem] and, on a yes, given the item with
    [takeNewItem]. *)
Definition askCapability (it : BaseItem) (receiver : @Entity BaseItem World)
    (slotIndex : nat) (localDirection : enumDirection.t) (cap : Capability)
    (w : World) : option (bool * World * list (@Call BaseItem)) :=
  match cap with
  | BeltCapability =>
      match Belt (components receiver) with
      | None => None
      | Some beltComp =>
          if canAcceptNewItem beltComp w localDirection
          then Some (true, takeNewItem beltComp it localDirection w,
                     [CallCanAcceptNewItem (uid receiver) localDirection true;
                      CallTakeNewItem (uid receiver) it localDirection])
          else Some (false, w,
                     [CallCanAcceptNewItem (uid receiver) localDirection false])
      end
  | ItemProcessorCapability =>
      match ItemProcessor (components receiver) with
      | None => None
      | Some itemProcessorComp =>
          Some (fst (tryTakeItem itemProcessorComp it slotIndex localDirection w),
                snd (tryTakeItem itemProcessorComp it slotIndex localDirection w),
                [CallTryTakeItem (uid receiver) it slotIndex localDirection
                   (fst (tryTakeItem itemProcessorComp it slotIndex
                           localDirection w))])
      end
  | UndergroundBeltCapability =>
      match UndergroundBelt (components receiver) with
      | None => None
      | Some undergroundBeltComp =>
          let speed := getUndergroundBeltBaseSpeed (hubGoals root) w in
          Some (fst (tryAcceptExternalItem undergroundBeltComp it speed w),
                snd (tryAcceptExternalItem undergroundBeltComp it speed w),
                [CallTryAcceptExternalItem (uid receiver) it speed
                   (fst (tryAcceptExternalItem undergroundBeltComp it speed w))])
      end
  end.

Fixpoint amendedHandoff (it : BaseItem) (receiver : @Entity BaseItem World)
    (slotIndex : nat) (localDirection : enumDirection.t)
    (caps : list Capability) (w : World) : bool * World * list (@Call BaseItem) :=
  match caps with
  | [] => (false, w, [])
  | cap :: later =>
      match askCapability it receiver slotIndex localDirection cap w with
      | None => amendedHandoff it receiver slotIndex localDirection later w
      | Some (true, w', calls) => (true, w', calls)
      | Some (false, w', calls) =>
          let '(result, w'', more) :=
            amendedHandoff it receiver slotIndex localDirection later w' in
          (result, w'', calls ++ more)
      end
  end.

End HandoffContract.

(** A call that asks a capability whether it takes the item. *)
Definition asking {BaseItem : Type} (c : @Call BaseItem) : bool :=
  match c with
  | CallCanAcceptNewItem _ _ _
  | CallTryTakeItem _ _ _ _ _
  | CallTryAcceptExternalItem _ _ _ _ => true
  | _ => false
  end.

(** How often a log asks a capability. *)
Definition askedTimes {BaseItem : Type} (cap : Capability)
    (log : list (@Call BaseItem)) : nat :=
  List.length
    (filter (fun c => asking c && Nat.eqb (callPriority c) (priority cap)) log).

(** Whether a log holds an accepting call of a capability that comes
    before [cap] in the fixed order. *)
Definition acceptedBefore {BaseItem : Type} (cap : Capability)
    (log : list (@Call BaseItem)) : bool :=
  existsb (fun c => accepting c && Nat.ltb (callPriority c) (priority cap)) log.

(** * Properties of the static map entity *)

Ltac vector_eq :=
  cbn; unfold Vector.addInplace, Vector.add, Vector.sub; cbn;
  do 2 f_equal; lia.

Ltac each_rotation H :=
  unfold validRotation in H;
  destruct H as [H | [H | [H | H]]]; rewrite H.

(** C2. For a component whose rotation is 0, 90, 180 or 270, with any
    integer origin, taking any integer local tile to the world and back
    yields the tile: worldToLocalTile(localTileToWorld(t)) = t. *)
Theorem C2_tile_round_trip (this : StaticMapEntityComponent) (t : Vector) :
  validRotation (rotation this) ->
  obind (StaticMapEntityComponent.localTileToWorld this t)
        (StaticMapEntityComponent.worldToLocalTile this) = Ok t.
Proof.
  intros H.
  unfold StaticMapEntityComponent.localTileToWorld,
    StaticMapEntityComponent.worldToLocalTile,
    StaticMapEntityComponent.applyRotationToVector,
    StaticMapEntityComponent.unapplyRotationToVector.
  destruct t as [tx ty], (origin this) as [ox oy].
  each_rotation H; vector_eq.
Qed.

Lemma C2_tile_round_trip_witness :
  validRotation (rotation (sampleBuilding 90))
  /\ obind (StaticMapEntityComponent.localTileToWorld (sampleBuilding 90) (mkVector 1 2))
           (StaticMapEntityComponent.worldToLocalTile (sampleBuilding 90))
     = Ok (mkVector 1 2).
Proof.
  split.
  - right; left; reflexivity.
  - apply (C2_tile_round_trip (sampleBuilding 90) (mkVector 1 2)).
    right; left; reflexivity.
Defined.

(** The inverse transforms compose to the identity the other way round as
    well. *)
Lemma world_tile_round_trip (this : StaticMapEntityComponent) (t : Vector) :
  validRotation (rotation this) ->
  obind (StaticMapEntityComponent.worldToLocalTile this t)
        (StaticMapEntityComponent.localTileToWorld this) = Ok t.
Proof.
  intros H.
  unfold StaticMapEntityComponent.localTileToWorld,
    StaticMapEntityComponent.worldToLocalTile,
    StaticMapEntityComponent.applyRotationToVector,
    StaticMapEntityComponent.unapplyRotationToVector.
  destruct t as [tx ty], (origin this) as [ox oy].
  each_rotation H; vector_eq.
Qed.

(** C3. For a component whose rotation is 0, 90, 180 or 270 and every
    cardinal direction d, worldDirectionToLocal(localDirectionToWorld(d)) = d;
    and directions turn by the table positions turn by: the unit vector of
    the turned direction is the turned unit vector, in both senses, so the
    tile a slot ejects to is the world image of its local neighbour tile. *)
Theorem C3_direction_round_trip (this : StaticMapEntityComponent)
    (d : enumDirection.t) :
  validRotation (rotation this) ->
  obind (StaticMapEntityComponent.localDirectionToWorld this d)
        (StaticMapEntityComponent.worldDirectionToLocal this) = Ok d
  /\ obind (StaticMapEntityComponent.localDirectionToWorld this d)
           (fun d' => Ok (enumDirectionToVector d'))
     = StaticMapEntityComponent.applyRotationToVector this (enumDirectionToVector d)
  /\ obind (StaticMapEntityComponent.worldDirectionToLocal this d)
           (fun d' => Ok (enumDirectionToVector d'))
     = StaticMapEntityComponent.unapplyRotationToVector this (enumDirectionToVector d)
  /\ forall localTile : Vector,
       obind (StaticMapEntityComponent.localTileToWorld this localTile)
         (fun worldTile =>
            obind (StaticMapEntityComponent.localDirectionToWorld this d)
              (fun d' => Ok (Vector.add worldTile (enumDirectionToVector d'))))
       = StaticMapEntityComponent.localTileToWorld this
           (Vector.add localTile (enumDirectionToVector d)).
Proof.
  intros H.
  unfold StaticMapEntityComponent.localDirectionToWorld,
    StaticMapEntityComponent.worldDirectionToLocal,
    StaticMapEntityComponent.localTileToWorld,
    StaticMapEntityComponent.applyRotationToVector,
    StaticMapEntityComponent.unapplyRotationToVector.
  destruct (origin this) as [ox oy].
  each_rotation H; repeat split; try (destruct d; reflexivity);
    intros [tx ty]; destruct d; vector_eq.
Qed.

Lemma C3_direction_round_trip_witness :
  validRotation (rotation (sampleBuilding 270))
  /\ obind (StaticMapEntityComponent.localDirectionToWorld (sampleBuilding 270)
              enumDirection.right)
           (StaticMapEntityComponent.worldDirectionToLocal (sampleBuilding 270))
     = Ok enumDirection.right.
Proof.
  split.
  - right; right; right; reflexivity.
  - apply (C3_direction_round_trip (sampleBuilding 270) enumDirection.right).
    right; right; right; reflexivity.
Defined.

(** What the constructor does, case by case: only [rotation] is
    asserted. *)
Lemma constructor_rejects (p : StaticMapEntityComponent.Params) :
  Z.rem (StaticMapEntityComponent.orDefault (StaticMapEntityComponent.p_rotation p) 0) 90
    <> 0 ->
  isOk (StaticMapEntityComponent.constructor p) = false.
Proof.
  intros H. unfold StaticMapEntityComponent.constructor, assert.
  apply Z.eqb_neq in H. rewrite H. reflexivity.
Qed.

Lemma constructor_accepts (p : StaticMapEntityComponent.Params) :
  Z.rem (StaticMapEntityComponent.orDefault (StaticMapEntityComponent.p_rotation p) 0) 90
    = 0 ->
  StaticMapEntityComponent.constructor p
  = Ok (mkStaticMapEntityComponent
          (StaticMapEntityComponent.orDefault (StaticMapEntityComponent.p_origin p)
             (mkVector 0 0))
          (StaticMapEntityComponent.orDefault (StaticMapEntityComponent.p_tileSize p)
             (mkVector 1 1))
          (StaticMapEntityComponent.p_spriteKey p)
          (StaticMapEntityComponent.orDefault (StaticMapEntityComponent.p_rotation p) 0)
          (StaticMapEntityComponent.orDefault
             (StaticMapEntityComponent.p_originalRotation p) 0)
          (StaticMapEntityComponent.p_silhouetteColor p)).
Proof.
  intros H. unfold StaticMapEntityComponent.constructor, assert.
  apply Z.eqb_eq in H. rewrite H. reflexivity.
Qed.

(** C4. Construction is asked to fail when [originalRotation] is not a
    multiple of 90.  With rotation 0 and originalRotation 45 the constructor
    returns a component, and the component stores the 45: the assertion
    tests [rotation] alone. *)
Theorem C4_originalRotation_unchecked :
  Z.rem 45 90 <> 0
  /\ StaticMapEntityComponent.constructor (sampleParams 0 45)
     = Ok (mkStaticMapEntityComponent (mkVector 5 7) (mkVector 2 3) None 0 45 None).
Proof.
  split.
  - discriminate.
  - reflexivity.
Qed.

Lemma bounds_default (this : StaticMapEntityComponent) :
  ~ validRotation (rotation this) ->
  StaticMapEntityComponent.getTileSpaceBounds this = Thrown "Invalid rotation".
Proof.
  unfold StaticMapEntityComponent.getTileSpaceBounds, validRotation.
  destruct (rotation this) as [|p|p]; intros H; try reflexivity.
  - exfalso; apply H; auto.
  - do 9 (try (destruct p as [p|p|]; try reflexivity));
      exfalso; apply H; auto 6.
Qed.

(** C8. For rotation 0, 90, 180 or 270 and every tile size,
    getTileSpaceBounds returns a rectangle of area tileSize.x * tileSize.y;
    at 90 and 270 its width and height are the tile size's swapped, and its
    corner is moved back by (dimension - 1) along the axis that turned
    negative, so that for a positive tile size the origin tile lies in the
    rectangle. *)
Theorem C8_bounds_area (this : StaticMapEntityComponent) :
  validRotation (rotation this) ->
  exists r : Rectangle,
    StaticMapEntityComponent.getTileSpaceBounds this = Ok r
    /\ rw r * rh r = x (tileSize this) * y (tileSize this)
    /\ (rotation this = 90 \/ rotation this = 270 ->
        rw r = y (tileSize this) /\ rh r = x (tileSize this))
    /\ (rotation this = 0 \/ rotation this = 180 ->
        rw r = x (tileSize this) /\ rh r = y (tileSize this))
    /\ (rotation this = 90 ->
        rx r = x (origin this) - (y (tileSize this) - 1) /\ ry r = y (origin this))
    /\ (rotation this = 270 ->
        rx r = x (origin this) /\ ry r = y (origin this) - (x (tileSize this) - 1))
    /\ (0 < x (tileSize this) -> 0 < y (tileSize this) ->
        containsTile r (origin this)).
Proof.
  intros H. unfold StaticMapEntityComponent.getTileSpaceBounds, containsTile.
  destruct H as [H | [H | [H | H]]]; rewrite H;
    eexists; (split; [reflexivity|]); cbn; repeat split; intros; lia.
Qed.

Lemma C8_bounds_area_witness :
  validRotation (rotation (sampleBuilding 90))
  /\ exists r : Rectangle,
       StaticMapEntityComponent.getTileSpaceBounds (sampleBuilding 90) = Ok r
       /\ rw r * rh r = 6.
Proof.
  split.
  - right; left; reflexivity.
  - destruct (C8_bounds_area (sampleBuilding 90)) as [r [Hr [Harea _]]].
    + right; left; reflexivity.
    + exists r. split; [exact Hr | exact Harea].
Defined.

(** The rectangle is the set of world tiles the footprint is taken to. *)
Lemma bounds_cover_footprint (this : StaticMapEntityComponent) (worldTile : Vector) :
  validRotation (rotation this) ->
  exists (r : Rectangle) (localTile : Vector),
    StaticMapEntityComponent.getTileSpaceBounds this = Ok r
    /\ StaticMapEntityComponent.worldToLocalTile this worldTile = Ok localTile
    /\ (containsTile r worldTile <->
        0 <= x localTile < x (tileSize this) /\ 0 <= y localTile < y (tileSize this)).
Proof.
  intros H.
  unfold StaticMapEntityComponent.getTileSpaceBounds,
    StaticMapEntityComponent.worldToLocalTile,
    StaticMapEntityComponent.unapplyRotationToVector, containsTile.
  destruct H as [H | [H | [H | H]]]; rewrite H;
    do 2 eexists; (split; [reflexivity|]); (split; [reflexivity|]);
    cbn; lia.
Qed.

(** C10. A rotation that is a multiple of 90 outside 0, 90, 180, 270 passes
    the constructor, and getTileSpaceBounds of the component built ends in
    its "Invalid rotation" assertion; for any component that branch is taken
    exactly when the rotation is not one of 0, 90, 180, 270. *)
Theorem C10_default_branch (p : StaticMapEntityComponent.Params) :
  (Z.rem (StaticMapEntityComponent.orDefault (StaticMapEntityComponent.p_rotation p) 0) 90
     = 0 ->
   ~ validRotationParams p ->
   exists this : StaticMapEntityComponent,
     StaticMapEntityComponent.constructor p = Ok this
     /\ rotation this
        = StaticMapEntityComponent.orDefault (StaticMapEntityComponent.p_rotation p) 0
     /\ StaticMapEntityComponent.getTileSpaceBounds this = Thrown "Invalid rotation")
  /\ (forall this : StaticMapEntityComponent,
        StaticMapEntityComponent.getTileSpaceBounds this = Thrown "Invalid rotation"
        <-> ~ validRotation (rotation this)).
Proof.
  split.
  - intros Hrem Hinvalid.
    eexists. split; [apply constructor_accepts; exact Hrem|].
    split; [reflexivity|].
    apply bounds_default. exact Hinvalid.
  - intros this. split.
    + intros Hthrown Hvalid.
      unfold StaticMapEntityComponent.getTileSpaceBounds in Hthrown.
      destruct Hvalid as [H | [H | [H | H]]]; rewrite H in Hthrown; discriminate.
    + apply bounds_default.
Qed.

Lemma C10_default_branch_witness :
  exists this : StaticMapEntityComponent,
    StaticMapEntityComponent.constructor (sampleParams (-90) 0) = Ok this
    /\ rotation this = -90
    /\ StaticMapEntityComponent.getTileSpaceBounds this = Thrown "Invalid rotation".
Proof.
  apply (proj1 (C10_default_branch (sampleParams (-90) 0))).
  - reflexivity.
  - unfold validRotationParams, validRotation; cbn; lia.
Defined.


(** * Properties of the item ejector system *)

Lemma Qltb_true_iff (a b : Q) : Qltb a b = true <-> (a < b)%Q.
Proof.
  unfold Qltb. rewrite negb_true_iff. split.
  - intros H. apply Qnot_le_lt. intros Hle.
    apply Qle_bool_iff in Hle. congruence.
  - intros H. destruct (Qle_bool b a) eqn:E; [|reflexivity].
    apply Qle_bool_iff in E. exfalso. exact (Qlt_not_le _ _ H E).
Qed.

Lemma Qltb_false_iff (a b : Q) : Qltb a b = false <-> ~ (a < b)%Q.
Proof.
  rewrite <- Qltb_true_iff. destruct (Qltb a b); split; congruence.
Qed.

(** [Math_min(1, v)] is the number 1 itself once [v] has reached 1. *)
Lemma Qmin_one_reached (v : Q) : (1 <= v)%Q -> Qmin 1 v = 1%Q.
Proof.
  intros H. unfold Qmin, GenericMinMax.gmin.
  destruct (1 ?= v)%Q eqn:E; try reflexivity.
  exfalso. apply Qgt_alt in E. exact (Qlt_not_le _ _ E H).
Qed.

Lemma Qmin_one_not_below (v : Q) : ~ (Qmin 1 v < 1)%Q -> Qmin 1 v = 1%Q.
Proof.
  intros H. unfold Qmin, GenericMinMax.gmin in *.
  destruct (1 ?= v)%Q eqn:E; try reflexivity.
  exfalso. apply H. apply Qgt_alt in E. exact E.
Qed.

Lemma stopsAtAccept_spec {BaseItem : Type} (log : list (@Call BaseItem)) :
  stopsAtAccept log = true ->
  forall before c after,
    log = before ++ c :: after -> accepting c = true -> after = [].
Proof.
  induction log as [|c0 rest IH]; intros Hstops before c after Hlog Hacc.
  - destruct before; discriminate.
  - cbn in Hstops. apply andb_true_iff in Hstops. destruct Hstops as [Hhead Hrest].
    destruct before as [|b before'].
    + cbn in Hlog. injection Hlog as -> ->.
      rewrite Hacc in Hhead. destruct after; [reflexivity | discriminate].
    + cbn in Hlog. injection Hlog as -> ->.
      exact (IH Hrest before' c after eq_refl Hacc).
Qed.

Ltac run_M :=
  unfold tryPassOverItem, orElse, passToBelt, passToItemProcessor,
    passToUndergroundBelt, bind, ret, query, invoke, reads; cbn.

Ltac split_calls :=
  repeat match goal with
         | |- context [canAcceptNewItem ?c ?w ?d] =>
             destruct (canAcceptNewItem c w d) eqn:?; cbn
         | |- context [tryTakeItem ?c ?it ?i ?d ?w] =>
             destruct (tryTakeItem c it i d w) as [[|] ?] eqn:?; cbn
         | |- context [tryAcceptExternalItem ?c ?it ?sp ?w] =>
             destruct (tryAcceptExternalItem c it sp w) as [[|] ?] eqn:?; cbn
         end.

(** What a handoff attempt does, over all receivers. *)
Lemma tryPassOverItem_returns {BaseItem World : Type}
    (root : @GameRoot BaseItem World) (it : BaseItem)
    (receiver : @Entity BaseItem World) (slotIndex : nat)
    (localDirection : enumDirection.t) (w : World) :
  exists (result : bool) (w' : World) (log : list (@Call BaseItem)),
    tryPassOverItem root it receiver slotIndex localDirection w = Ok (result, w', log)
    /\ inPriorityOrder log = true
    /\ (forall cap, calledOn cap log = true -> exposes receiver cap = true)
    /\ (forall cap, firstExposed receiver = Some cap -> calledOn cap log = true)
    /\ (firstExposed receiver = None -> log = [])
    /\ stopsAtAccept log = true
    /\ existsb accepting log = result
    /\ (result = false ->
        forall cap, exposes receiver cap = true -> calledOn cap log = true).
Proof.
  destruct receiver as [u [ej st acc [belt|] [proc|] [ug|]]]; run_M; split_calls;
    do 3 eexists; (split; [reflexivity|]); cbn;
    repeat split; try (intros []; cbn; congruence);
    unfold firstExposed; cbn; try congruence;
    intros ? []; cbn; congruence.
Qed.

(** A handoff that succeeds hands the item over in exactly one call, its
    last one. *)
Lemma tryPassOverItem_accepts_once {BaseItem World : Type}
    (root : @GameRoot BaseItem World) (it : BaseItem)
    (receiver : @Entity BaseItem World) (slotIndex : nat)
    (localDirection : enumDirection.t) (w w' : World) (log : list (@Call BaseItem)) :
  tryPassOverItem root it receiver slotIndex localDirection w = Ok (true, w', log) ->
  exists c, filter accepting log = [c] /\ handedOver c = Some (uid receiver, it).
Proof.
  destruct receiver as [u [ej st acc [belt|] [proc|] [ug|]]]; run_M; split_calls;
    intros H; inversion H; subst; cbn; eexists; split; reflexivity.
Qed.

(** A handoff that fails on receivers honouring the contract leaves the
    store alone. *)
Lemma tryPassOverItem_refused_store {BaseItem World : Type}
    (root : @GameRoot BaseItem World) (it : BaseItem)
    (receiver : @Entity BaseItem World) (slotIndex : nat)
    (localDirection : enumDirection.t) (w w' : World) (log : list (@Call BaseItem)) :
  refusalKeepsStore receiver ->
  tryPassOverItem root it receiver slotIndex localDirection w = Ok (false, w', log) ->
  w' = w.
Proof.
  intros [Hproc Hug].
  destruct receiver as [u [ej st acc [belt|] [proc|] [ug|]]]; cbn in Hproc, Hug;
    run_M; split_calls; intros H; inversion H; subst; try reflexivity;
    repeat match goal with
           | E : tryTakeItem ?c ?i ?n ?d ?w0 = (false, ?w1) |- _ =>
               let K := fresh "K" in
               pose proof (Hproc c eq_refl i n d w0) as K;
               rewrite E in K; specialize (K eq_refl); cbn in K;
               subst w1; clear E
           | E : tryAcceptExternalItem ?c ?i ?sp ?w0 = (false, ?w1) |- _ =>
               let K := fresh "K" in
               pose proof (Hug c eq_refl i sp w0) as K;
               rewrite E in K; specialize (K eq_refl); cbn in K;
               subst w1; clear E
           end; reflexivity.
Qed.

(** [tryPassOverItem] is the handoff of the amended contract, call for
    call. *)
Lemma tryPassOverItem_is_amendedHandoff {BaseItem World : Type}
    (root : @GameRoot BaseItem World) (it : BaseItem)
    (receiver : @Entity BaseItem World) (slotIndex : nat)
    (localDirection : enumDirection.t) (w : World) :
  tryPassOverItem root it receiver slotIndex localDirection w
  = Ok (amendedHandoff root it receiver slotIndex localDirection priorityOrder w).
Proof.
  destruct receiver as [u [ej st acc [belt|] [proc|] [ug|]]]; run_M; split_calls;
    repeat match goal with
           | E : _ = (_, _) |- _ => rewrite E; cbn
           end;
    reflexivity.
Qed.

(** Each capability is asked at most once; a Belt is given the item only
    right after it said yes; and an exposed capability is left out only when
    one before it accepted. *)
Lemma tryPassOverItem_asks_once {BaseItem World : Type}
    (root : @GameRoot BaseItem World) (it : BaseItem)
    (receiver : @Entity BaseItem World) (slotIndex : nat)
    (localDirection : enumDirection.t) (w w' : World) (result : bool)
    (log : list (@Call BaseItem)) :
  tryPassOverItem root it receiver slotIndex localDirection w = Ok (result, w', log) ->
  (forall cap, (askedTimes cap log <= 1)%nat)
  /\ (forall cap,
        exposes receiver cap = true ->
        calledOn cap log = negb (acceptedBefore cap log))
  /\ (forall cap, exposes receiver cap = true -> acceptedBefore cap log = false ->
        askedTimes cap log = 1%nat)
  /\ (List.length (filter accepting log) <= 1)%nat.
Proof.
  destruct receiver as [u [ej st acc [belt|] [proc|] [ug|]]]; run_M; split_calls;
    intros H; injection H as <- <- <-; unfold askedTimes, acceptedBefore; cbn;
    repeat split; try lia;
    intros []; cbn; (lia || congruence).
Qed.

(** In a handoff a Belt is given the item only right after it said it
    has room. *)
Lemma tryPassOverItem_takes {BaseItem World : Type}
    (root : @GameRoot BaseItem World) (it : BaseItem)
    (receiver : @Entity BaseItem World) (slotIndex : nat)
    (localDirection : enumDirection.t) (w w' : World) (result : bool)
    (log : list (@Call BaseItem)) :
  tryPassOverItem root it receiver slotIndex localDirection w = Ok (result, w', log) ->
  forall previous, takesOnlyAfterAsking previous log = true.
Proof.
  destruct receiver as [u [ej st acc [belt|] [proc|] [ug|]]]; run_M; split_calls;
    intros H; injection H as <- <- <-; intros previous; cbn;
    rewrite ?Nat.eqb_refl; destruct localDirection; reflexivity.
Qed.

(** C1 (as amended). Every handoff attempt returns, and its calls go to
    capabilities the receiver exposes, in the fixed order Belt,
    ItemProcessor, UndergroundBelt, starting with the first one exposed.  The
    attempt ends with the first call by which the receiver takes the item:
    no call follows it, and the result is true exactly then.  A call that
    answers false does not end the attempt: the next exposed capability is
    tried, whatever the capabilities after it would answer, so an exposed
    capability is called exactly when no capability before it accepted, and
    when the result is false every exposed capability has been called.  Each
    capability is asked at most once, a Belt is given the item only right
    after its canAcceptNewItem answered true, and at most one call accepts.
    Call for call, the attempt is the handoff of the amended contract. *)
Theorem C1_capabilities_tried_in_order {BaseItem World : Type}
    (root : @GameRoot BaseItem World) (it : BaseItem)
    (receiver : @Entity BaseItem World) (slotIndex : nat)
    (localDirection : enumDirection.t) (w : World) :
  exists (result : bool) (w' : World) (log : list (@Call BaseItem)),
    tryPassOverItem root it receiver slotIndex localDirection w = Ok (result, w', log)
    /\ inPriorityOrder log = true
    /\ (forall cap, calledOn cap log = true -> exposes receiver cap = true)
    /\ (forall cap, firstExposed receiver = Some cap -> calledOn cap log = true)
    /\ (firstExposed receiver = None -> log = [])
    /\ (forall before c after,
          log = before ++ c :: after -> accepting c = true -> after = [])
    /\ (result = true <-> existsb accepting log = true)
    /\ (result = false ->
        forall cap, exposes receiver cap = true -> calledOn cap log = true)
    /\ (result, w', log)
       = amendedHandoff root it receiver slotIndex localDirection priorityOrder w
    /\ (forall cap, (askedTimes cap log <= 1)%nat)
    /\ (forall cap,
          exposes receiver cap = true ->
          calledOn cap log = negb (acceptedBefore cap log))
    /\ (forall cap, exposes receiver cap = true -> acceptedBefore cap log = false ->
          askedTimes cap log = 1%nat)
    /\ (List.length (filter accepting log) <= 1)%nat
    /\ takesOnlyAfterAsking None log = true.
Proof.
  destruct (tryPassOverItem_returns root it receiver slotIndex localDirection w)
    as (result & w' & log & Hrun & Horder & Hexposed & Hfirst & Hnone & Hstop
        & Hresult & Hall).
  pose proof (tryPassOverItem_is_amendedHandoff root it receiver slotIndex
                localDirection w) as Hexact.
  rewrite Hrun in Hexact. injection Hexact as Hexact.
  destruct (tryPassOverItem_asks_once root it receiver slotIndex localDirection
              w w' result log Hrun) as (Honce & Hcalled & Hasked & Hone).
  pose proof (tryPassOverItem_takes root it receiver slotIndex localDirection
                w w' result log Hrun None) as Htakes.
  exists result, w', log.
  repeat split; auto.
  - apply stopsAtAccept_spec. exact Hstop.
  - intros ->. exact Hresult.
  - intros H. rewrite Hresult in H. exact H.
Qed.

(** C1, as stated, fails: a receiver that exposes a Belt with no room and
    an ItemProcessor gets the ItemProcessor's [tryTakeItem] called in the
    same handoff, after the Belt has answered. *)
Lemma C1_later_capability_called :
  exposes (sampleReceiver (Some false) (Some true) None) BeltCapability = true
  /\ tryPassOverItem (sampleRoot None) "shape"%string
       (sampleReceiver (Some false) (Some true) None) 0 enumDirection.left []
     = Ok (true, [(2%nat, "shape"%string)],
           [CallCanAcceptNewItem 2 enumDirection.left false;
            CallTryTakeItem 2 "shape"%string 0 enumDirection.left true])
  /\ ~ claimedFirstExposedWins (sampleReceiver (Some false) (Some true) None)
        [CallCanAcceptNewItem 2 enumDirection.left false;
         CallTryTakeItem 2 "shape"%string 0 enumDirection.left true].
Proof.
  split; [reflexivity|]. split; [reflexivity|].
  intros H.
  specialize (H BeltCapability ItemProcessorCapability eq_refl (le_n 1)).
  discriminate H.
Qed.

(** C5. A slot that holds an item and whose progress is still below 1
    after the advance progress = min(1, progress + growth) ends its tick
    there: the call log is empty (no grid query, no receiver call), the
    store is as before, and the slot differs from before by the advanced
    progress alone. *)
Theorem C5_still_ejecting_makes_no_call {BaseItem World : Type}
    (root : @GameRoot BaseItem World) (progressGrowth : Q)
    (staticComp : option StaticMapEntityComponent)
    (slot : @ItemEjectorSlot BaseItem) (it : BaseItem) (w : World) :
  item slot = Some it ->
  (Qmin 1 (progress slot + progressGrowth) < 1)%Q ->
  updateSlot root progressGrowth staticComp slot w
  = Ok (mkItemEjectorSlot (pos slot) (direction slot) (Some it)
          (Qmin 1 (progress slot + progressGrowth)),
        w, []).
Proof.
  intros Hitem Hbelow.
  unfold updateSlot. rewrite Hitem.
  cbn [progress setProgress].
  apply Qltb_true_iff in Hbelow. rewrite Hbelow.
  unfold ret, setProgress. rewrite Hitem. reflexivity.
Qed.

Lemma C5_still_ejecting_makes_no_call_witness :
  item (sampleSlot (Some "shape"%string) 0) = Some "shape"%string
  /\ (Qmin 1 (progress (sampleSlot (Some "shape"%string) 0) + (1 # 10)) < 1)%Q
  /\ updateSlot (sampleRoot (Some (sampleReceiver (Some true) None None))) (1 # 10)
       (Some (sampleStatic (mkVector 0 0) 0)) (sampleSlot (Some "shape"%string) 0) []
     = Ok (mkItemEjectorSlot (mkVector 0 0) enumDirection.right (Some "shape"%string)
             (Qmin 1 (0 + (1 # 10))),
           [], []).
Proof.
  split; [reflexivity|]. split; [reflexivity|].
  apply (C5_still_ejecting_makes_no_call
           (sampleRoot (Some (sampleReceiver (Some true) None None))) (1 # 10)
           (Some (sampleStatic (mkVector 0 0) 0))
           (sampleSlot (Some "shape"%string) 0) "shape"%string []);
    reflexivity.
Defined.

(** The same over a whole pass: while every slot is idle or still below 1
    after its advance, [update] makes no call at all and leaves the store
    alone. *)
Lemma forEach_silent {BaseItem World A B : Type} (f : A -> @M BaseItem World B)
    (l : list A) (w : World) :
  (forall a, In a l -> exists b, f a w = Ok (b, w, [])) ->
  exists bs, forEach f l w = Ok (bs, w, []).
Proof.
  induction l as [|a rest IH]; intros Hall.
  - exists []. reflexivity.
  - destruct (Hall a (or_introl eq_refl)) as (b & Hb).
    destruct IH as (bs & Hbs).
    { intros a' Hin. apply Hall. right. exact Hin. }
    exists (b :: bs). cbn [forEach]. unfold bind, ret.
    rewrite Hb, Hbs. reflexivity.
Qed.

Lemma update_silent_while_ejecting {BaseItem World : Type}
    (root : @GameRoot BaseItem World) (globalConfig : GlobalConfig)
    (allEntities : list (@Entity BaseItem World)) (w : World) :
  (forall entity, In entity allEntities ->
     exists ejectorComp,
       ItemEjector (components entity) = Some ejectorComp
       /\ forall slot, In slot (slots ejectorComp) ->
            item slot = None
            \/ (Qmin 1 (progress slot
                         + getBeltBaseSpeed (hubGoals root) w / (1 # 2)
                           * gc_physicsDeltaSeconds globalConfig) < 1)%Q) ->
  exists entities', update root globalConfig allEntities w = Ok (entities', w, []).
Proof.
  intros Hall. unfold update, bind, reads.
  set (growth := (getBeltBaseSpeed (hubGoals root) w / (1 # 2)
                  * gc_physicsDeltaSeconds globalConfig)%Q) in *.
  destruct (forEach_silent (updateEntity root growth) allEntities w) as (es & Hes).
  - intros entity Hin.
    destruct (Hall entity Hin) as (ejectorComp & Hcomp & Hslots).
    unfold updateEntity, bind, deref, ret. rewrite Hcomp.
    destruct (forEach_silent
                (updateSlot root growth (StaticMapEntity (components entity)))
                (slots ejectorComp) w) as (ss & Hss).
    + intros slot Hslot. destruct (Hslots slot Hslot) as [Hidle | Hbelow].
      * exists slot. unfold updateSlot. rewrite Hidle. reflexivity.
      * destruct (item slot) as [it|] eqn:Hitem.
        -- eexists. unfold updateSlot. rewrite Hitem.
           cbn [progress setProgress].
           apply Qltb_true_iff in Hbelow. rewrite Hbelow. reflexivity.
        -- exists slot. unfold updateSlot. rewrite Hitem. reflexivity.
    + rewrite Hss. eexists. reflexivity.
  - rewrite Hes. eexists. reflexivity.
Qed.

(** What one tick does to a slot that holds an item: the position and the
    direction stay, the progress is advanced, and the item is either kept
    with no accepting call made, or cleared after exactly one. *)
Lemma updateSlot_outcome {BaseItem World : Type}
    (root : @GameRoot BaseItem World) (progressGrowth : Q)
    (staticComp : option StaticMapEntityComponent)
    (slot slot' : @ItemEjectorSlot BaseItem) (it : BaseItem) (w w' : World)
    (log : list (@Call BaseItem)) :
  item slot = Some it ->
  updateSlot root progressGrowth staticComp slot w = Ok (slot', w', log) ->
  pos slot' = pos slot /\ direction slot' = direction slot
  /\ progress slot' = Qmin 1 (progress slot + progressGrowth)
  /\ ((item slot' = Some it /\ existsb accepting log = false)
      \/ (item slot' = None /\ progress slot' = 1%Q
          /\ stopsAtAccept log = true
          /\ exists c receiver,
               filter accepting log = [c] /\ handedOver c = Some (receiver, it))).
Proof.
  intros Hitem Hrun.
  unfold updateSlot in Hrun. rewrite Hitem in Hrun.
  cbn [progress setProgress] in Hrun.
  destruct (Qltb (Qmin 1 (progress slot + progressGrowth)) 1) eqn:Hlt.
  - unfold ret in Hrun. inversion Hrun; subst. cbn.
    repeat split; auto.
  - apply Qltb_false_iff in Hlt. apply Qmin_one_not_below in Hlt.
    rewrite Hlt in Hrun.
    unfold bind, deref, ret, liftOutcome, query in Hrun.
    destruct staticComp as [sc|]; [|discriminate Hrun].
    destruct (ejectTarget sc (setProgress slot 1)) as [[tile d]|] eqn:Htarget;
      [|discriminate Hrun].
    cbn -[tryPassOverItem] in Hrun.
    destruct (getTileContent root w tile) as [target|] eqn:Hgrid;
      [|inversion Hrun; subst; cbn; auto 6].
    destruct (ItemAcceptor (components target)) as [acceptor|] eqn:Hacceptor;
      [|inversion Hrun; subst; cbn; auto 6].
    destruct (StaticMapEntity (components target)) as [targetStatic|];
      [|discriminate Hrun].
    destruct (StaticMapEntityComponent.worldToLocalTile targetStatic tile)
      as [localTile|]; [|discriminate Hrun].
    destruct (StaticMapEntityComponent.worldDirectionToLocal targetStatic d)
      as [localDirection|]; [|discriminate Hrun].
    cbn -[tryPassOverItem] in Hrun.
    destruct (findMatchingSlot acceptor w localTile localDirection) as [ms|];
      [|inversion Hrun; subst; cbn; auto 6].
    cbn -[tryPassOverItem] in Hrun.
    destruct (canAcceptItem acceptor w (index ms) it);
      cbn -[tryPassOverItem] in Hrun;
      [|inversion Hrun; subst; cbn; auto 6].
    destruct (tryPassOverItem_returns root it target (index ms)
                (acceptedDirection ms) w)
      as (result & w1 & l1 & Hpass & _ & _ & _ & _ & Hstop & Hresult & _).
    rewrite Hpass in Hrun.
    destruct result; cbn in Hrun; inversion Hrun; subst; cbn;
      rewrite app_nil_r; repeat split; auto.
    right. repeat split; auto.
    destruct (tryPassOverItem_accepts_once _ _ _ _ _ _ _ _ Hpass) as (c & Hc & Hover).
    exists c, (uid target). auto.
Qed.

Lemma ejectTarget_setProgress {BaseItem : Type} (sc : StaticMapEntityComponent)
    (slot : @ItemEjectorSlot BaseItem) (p : Q) :
  ejectTarget sc (setProgress slot p) = ejectTarget sc slot.
Proof. reflexivity. Qed.

Lemma updateSlot_blocked {BaseItem World : Type}
    (root : @GameRoot BaseItem World) (progressGrowth : Q)
    (staticComp : StaticMapEntityComponent)
    (slot : @ItemEjectorSlot BaseItem) (it : BaseItem) (w : World) :
  item slot = Some it ->
  (progress slot == 1)%Q ->
  (0 <= progressGrowth)%Q ->
  (forall tile target,
     getTileContent root w tile = Some target -> refusalKeepsStore target) ->
  Blocked root staticComp slot it w ->
  exists log,
    updateSlot root progressGrowth (Some staticComp) slot w
    = Ok (setProgress slot 1, w, log)
    /\ existsb accepting log = false.
Proof.
  intros Hitem Hone Hgrowth Hcontract Hblocked.
  assert (Hmin : Qmin 1 (progress slot + progressGrowth) = 1%Q).
  { apply Qmin_one_reached. rewrite Hone.
    rewrite <- (Qplus_0_r 1) at 1. apply Qplus_le_r. exact Hgrowth. }
  unfold updateSlot. rewrite Hitem. cbn [progress setProgress].
  rewrite Hmin.
  change (Qltb 1 1) with false. cbv iota.
  unfold bind, deref, ret, liftOutcome, query.
  rewrite ejectTarget_setProgress.
  destruct Hblocked as
    [ tile d Htarget Hgrid
    | tile d target Htarget Hgrid Hacceptor
    | tile d target acceptor targetStatic localTile localDirection
        Htarget Hgrid Hacceptor Hstatic Htile Hdir Hmatch
    | tile d target acceptor targetStatic localTile localDirection ms
        Htarget Hgrid Hacceptor Hstatic Htile Hdir Hmatch Hrefused
    | tile d target acceptor targetStatic localTile localDirection ms w1 l1
        Htarget Hgrid Hacceptor Hstatic Htile Hdir Hmatch Haccepts Hpass ];
    rewrite Htarget; cbn -[tryPassOverItem]; rewrite Hgrid.
  - eexists. split; reflexivity.
  - rewrite Hacceptor. eexists. split; reflexivity.
  - rewrite Hacceptor, Hstatic, Htile, Hdir. cbn -[tryPassOverItem].
    rewrite Hmatch. eexists. split; reflexivity.
  - rewrite Hacceptor, Hstatic, Htile, Hdir. cbn -[tryPassOverItem].
    rewrite Hmatch. cbn -[tryPassOverItem]. rewrite Hrefused.
    eexists. split; reflexivity.
  - rewrite Hacceptor, Hstatic, Htile, Hdir. cbn -[tryPassOverItem].
    rewrite Hmatch. cbn -[tryPassOverItem]. rewrite Haccepts.
    cbn -[tryPassOverItem]. rewrite Hpass.
    assert (w1 = w) as ->.
    { eapply tryPassOverItem_refused_store; [|exact Hpass].
      exact (Hcontract tile target Hgrid). }
    destruct (tryPassOverItem_returns root it target (index ms)
                (acceptedDirection ms) w)
      as (result & w2 & l2 & Hpass' & _ & _ & _ & _ & _ & Hresult & _).
    rewrite Hpass in Hpass'. injection Hpass' as Hr Hw Hl.
    rewrite <- Hr, <- Hl in Hresult.
    eexists. split; [reflexivity|]. cbn. rewrite app_nil_r. exact Hresult.
Qed.

Lemma Blocked_setProgress {BaseItem World : Type}
    (root : @GameRoot BaseItem World) (staticComp : StaticMapEntityComponent)
    (slot : @ItemEjectorSlot BaseItem) (it : BaseItem) (w : World) (p : Q) :
  Blocked root staticComp slot it w ->
  Blocked root staticComp (setProgress slot p) it w.
Proof.
  intros H.
  destruct H;
    [ eapply BlockedNoEntity | eapply BlockedNoAcceptor
    | eapply BlockedNoMatchingSlot | eapply BlockedRefused
    | eapply BlockedPassFailed ];
    rewrite ?ejectTarget_setProgress; eassumption.
Qed.

(** C6. A slot holding an item with progress 1, under a growth that is
    not negative, in a store where the handoff cannot succeed (no entity on
    the target tile, no acceptor, no matching slot, acceptance refused, or
    the handoff attempt answers false) and where a receiver's refusing call
    leaves the store alone: any number of ticks leaves the held item, the
    progress, the position, the direction and the store as they were, and
    no accepting call is made. *)
Theorem C6_blocked_slot_unchanged {BaseItem World : Type}
    (root : @GameRoot BaseItem World) (progressGrowth : Q)
    (staticComp : StaticMapEntityComponent)
    (slot : @ItemEjectorSlot BaseItem) (it : BaseItem) (w : World) :
  item slot = Some it ->
  (progress slot == 1)%Q ->
  (0 <= progressGrowth)%Q ->
  (forall tile target,
     getTileContent root w tile = Some target -> refusalKeepsStore target) ->
  Blocked root staticComp slot it w ->
  forall n : nat,
  exists slot' log,
    repeatUpdateSlot root progressGrowth (Some staticComp) n slot w
    = Ok (slot', w, log)
    /\ item slot' = item slot
    /\ (progress slot' == progress slot)%Q
    /\ pos slot' = pos slot
    /\ direction slot' = direction slot
    /\ existsb accepting log = false.
Proof.
  intros Hitem Hone Hgrowth Hcontract Hblocked n.
  revert slot Hitem Hone Hblocked.
  induction n as [|n IH]; intros slot Hitem Hone Hblocked.
  - exists slot, []. cbn. repeat split; reflexivity.
  - destruct (updateSlot_blocked root progressGrowth staticComp slot it w
                Hitem Hone Hgrowth Hcontract Hblocked) as (log1 & Hstep & Hlog1).
    destruct (IH (setProgress slot 1)) as
      (slot' & log2 & Hrest & Hitem' & Hprogress' & Hpos' & Hdir' & Hlog2).
    + exact Hitem.
    + reflexivity.
    + apply Blocked_setProgress. exact Hblocked.
    + exists slot', (log1 ++ log2).
      cbn [repeatUpdateSlot]. unfold bind. rewrite Hstep, Hrest.
      repeat split; auto.
      * rewrite Hprogress'. cbn. symmetry. exact Hone.
      * rewrite existsb_app, Hlog1, Hlog2. reflexivity.
Qed.

Lemma C6_blocked_slot_unchanged_witness :
  exists slot' log,
    repeatUpdateSlot (sampleRoot (Some (sampleReceiver (Some false) None None)))
      (1 # 10) (Some (sampleStatic (mkVector 0 0) 0)) 3
      (sampleSlot (Some "shape"%string) 1) []
    = Ok (slot', [], log)
    /\ item slot' = item (sampleSlot (Some "shape"%string) 1)
    /\ (progress slot' == progress (sampleSlot (Some "shape"%string) 1))%Q
    /\ pos slot' = pos (sampleSlot (Some "shape"%string) 1)
    /\ direction slot' = direction (sampleSlot (Some "shape"%string) 1)
    /\ existsb accepting log = false.
Proof.
  apply (C6_blocked_slot_unchanged
           (sampleRoot (Some (sampleReceiver (Some false) None None)))
           (1 # 10) (sampleStatic (mkVector 0 0) 0)
           (sampleSlot (Some "shape"%string) 1) "shape"%string []).
  - reflexivity.
  - reflexivity.
  - discriminate.
  - intros tile target H. cbn in H.
    destruct ((x tile =? 1) && (y tile =? 0)); [|discriminate H].
    injection H as <-. split; intros c Hc; discriminate Hc.
  - eapply BlockedPassFailed with
      (tile := mkVector 1 0) (d := enumDirection.right)
      (target := sampleReceiver (Some false) None None)
      (acceptor := sampleAcceptor)
      (targetStatic := sampleStatic (mkVector 1 0) 0)
      (localTile := mkVector 0 0) (localDirection := enumDirection.right)
      (ms := mkMatchingSlot 0 enumDirection.left);
      reflexivity.
Defined.



(** A slot is drawn at most once, and only when it holds an item. *)
Lemma drawSlot_items {BaseItem : Type} (globalConfig : GlobalConfig)
    (staticComp : StaticMapEntityComponent) (slot : @ItemEjectorSlot BaseItem) :
  validRotation (rotation staticComp) ->
  exists calls,
    drawSlot globalConfig (Some staticComp) slot = Ok calls
    /\ List.map drawnItem calls
       = match item slot with Some it => [it] | None => [] end.
Proof.
  intros H. unfold drawSlot.
  destruct H as [H | [H | [H | H]]]; rewrite H;
    destruct (item slot); eexists; split; reflexivity.
Qed.

(** C9 (as amended). For a component with rotation 0, 90, 180 or 270: an
    idle slot is not drawn, and a slot holding an item is drawn once, at the
    pixel position tileSize times
      entityOrigin + rotate(localPosition) + 0.5
        + rotate(localDirectionUnitVector) * 0.5 * progress
    in each coordinate: the slot's tile centre at progress 0, the middle of
    the tile's exit edge at progress 1. *)
Theorem C9_draw_position {BaseItem : Type} (globalConfig : GlobalConfig)
    (staticComp : StaticMapEntityComponent) (slot : @ItemEjectorSlot BaseItem) :
  validRotation (rotation staticComp) ->
  exists realPosition realDirectionVector : Vector,
    StaticMapEntityComponent.applyRotationToVector staticComp (pos slot)
    = Ok realPosition
    /\ StaticMapEntityComponent.applyRotationToVector staticComp
         (enumDirectionToVector (direction slot))
       = Ok realDirectionVector
    /\ drawSlot globalConfig (Some staticComp) slot
       = Ok match item slot with
            | None => []
            | Some it =>
                [mkDrawCall it
                   ((inject_Z (x (origin staticComp)) + inject_Z (x realPosition)
                     + (1 # 2)
                     + inject_Z (x realDirectionVector) * (1 # 2) * progress slot)
                    * gc_tileSize globalConfig)%Q
                   ((inject_Z (y (origin staticComp)) + inject_Z (y realPosition)
                     + (1 # 2)
                     + inject_Z (y realDirectionVector) * (1 # 2) * progress slot)
                    * gc_tileSize globalConfig)%Q]
            end.
Proof.
  intros H.
  unfold StaticMapEntityComponent.applyRotationToVector, drawSlot.
  destruct H as [H | [H | [H | H]]]; rewrite H;
    destruct (direction slot), (item slot);
    do 2 eexists; (split; [reflexivity|]); (split; reflexivity).
Qed.

Lemma C9_draw_position_witness :
  drawSlot sampleConfig (Some (sampleStatic (mkVector 0 0) 90))
    (sampleSlot (Some "shape"%string) 1)
  = Ok [mkDrawCall "shape"%string
          ((inject_Z 0 + inject_Z 0 + (1 # 2) + inject_Z 0 * (1 # 2) * 1) * 32)%Q
          ((inject_Z 0 + inject_Z 0 + (1 # 2) + inject_Z 1 * (1 # 2) * 1) * 32)%Q].
Proof.
  destruct (C9_draw_position sampleConfig (sampleStatic (mkVector 0 0) 90)
              (sampleSlot (Some "shape"%string) 1))
    as (realPosition & realDirectionVector & Hpos & Hdir & Hdraw).
  - right; left; reflexivity.
  - injection Hpos as <-. injection Hdir as <-. exact Hdraw.
Defined.

(** C9, as stated, fails: the formula of the claim leaves out the half
    tile that centres the item.  An emitter at the origin, not rotated, whose
    slot (0,0) ejects to the right at progress 0, draws its item at pixel
    (16,16) for 32-pixel tiles; the claimed formula gives (0,0). *)
Lemma C9_center_offset_missing :
  drawSingleEntity sampleConfig (sampleEmitter (Some "shape"%string) 0)
  = Ok [mkDrawCall "shape"%string (64 # 4) (64 # 4)]
  /\ ~ (64 # 4
        == fst (claimedDrawTile (sampleStatic (mkVector 0 0) 0) (mkVector 0 0)
                  (enumDirectionToVector enumDirection.right) 0)
           * gc_tileSize sampleConfig)%Q.
Proof.
  split.
  - vm_compute. reflexivity.
  - vm_compute. discriminate.
Qed.

(** The items an entity draws are the items its slots hold, in slot
    order. *)
Lemma drawSlots_items {BaseItem : Type} (globalConfig : GlobalConfig)
    (staticComp : StaticMapEntityComponent) (ss : list (@ItemEjectorSlot BaseItem)) :
  validRotation (rotation staticComp) ->
  exists calls,
    drawSlots globalConfig (Some staticComp) ss = Ok calls
    /\ List.map drawnItem calls
       = flat_map (fun s => match item s with Some it => [it] | None => [] end) ss.
Proof.
  intros H. induction ss as [|slot rest IH].
  - exists []. split; reflexivity.
  - destruct IH as (more & Hmore & Hitems).
    destruct (drawSlot_items globalConfig staticComp slot H) as (calls & Hcalls & Hone).
    exists (calls ++ more). cbn [drawSlots flat_map].
    rewrite Hcalls, Hmore. cbn. split; [reflexivity|].
    rewrite map_app, Hitems, Hone. reflexivity.
Qed.

(** ** The scenarios of the specification, run on the sample factory *)

(** An emitter turned by 90 degrees ejects its "right" slot downwards, to
    the tile below its origin. *)
Example rotated_emitter_ejects_down :
  ejectTarget (sampleStatic (mkVector 0 0) 90) (sampleSlot (Some "shape"%string) 1)
  = Ok (mkVector 0 1, enumDirection.bottom).
Proof. reflexivity. Qed.

(** One full update: the belt speed 3 and the tick 1/60 give the growth
    1/10; a slot at 9/10 arrives and hands its item to the free belt on
    tile (1,0). *)
Example update_hands_over :
  update (sampleRoot (Some (sampleReceiver (Some true) None None))) sampleConfig
    [sampleEmitter (Some "shape"%string) (9 # 10)] []
  = Ok ([sampleEmitter None 1],
        [(2%nat, "shape"%string)],
        [CallGetTileContent (mkVector 1 0);
         CallFindMatchingSlot 2 (mkVector 0 0) enumDirection.right;
         CallCanAcceptItem 2 0 "shape"%string;
         CallCanAcceptNewItem 2 enumDirection.left true;
         CallTakeNewItem 2 "shape"%string enumDirection.left]).
Proof. vm_compute. reflexivity. Qed.

(** The same update against a belt with no room: the slot waits at 1. *)
Example update_waits :
  update (sampleRoot (Some (sampleReceiver (Some false) None None))) sampleConfig
    [sampleEmitter (Some "shape"%string) (9 # 10)] []
  = Ok ([sampleEmitter (Some "shape"%string) 1],
        [],
        [CallGetTileContent (mkVector 1 0);
         CallFindMatchingSlot 2 (mkVector 0 0) enumDirection.right;
         CallCanAcceptItem 2 0 "shape"%string;
         CallCanAcceptNewItem 2 enumDirection.left false]).
Proof. vm_compute. reflexivity. Qed.


(** * Further properties of the static map entity *)

(** X1. The constructor returns a component exactly when the rotation
    (0 when omitted) is an integer multiple of 90, of either sign and of any
    size; no other parameter matters, and the component holds the
    parameters given, or their defaults. *)
Theorem X1_constructor_ok_iff_multiple (p : StaticMapEntityComponent.Params) :
  (isOk (StaticMapEntityComponent.constructor p) = true
   <-> exists k : Z,
         StaticMapEntityComponent.orDefault (StaticMapEntityComponent.p_rotation p) 0
         = 90 * k)
  /\ (forall this,
        StaticMapEntityComponent.constructor p = Ok this ->
        origin this
        = StaticMapEntityComponent.orDefault (StaticMapEntityComponent.p_origin p)
            (mkVector 0 0)
        /\ tileSize this
           = StaticMapEntityComponent.orDefault (StaticMapEntityComponent.p_tileSize p)
               (mkVector 1 1)
        /\ rotation this
           = StaticMapEntityComponent.orDefault (StaticMapEntityComponent.p_rotation p) 0
        /\ originalRotation this
           = StaticMapEntityComponent.orDefault
               (StaticMapEntityComponent.p_originalRotation p) 0
        /\ spriteKey this = StaticMapEntityComponent.p_spriteKey p
        /\ silhouetteColor this = StaticMapEntityComponent.p_silhouetteColor p).
Proof.
  set (r := StaticMapEntityComponent.orDefault (StaticMapEntityComponent.p_rotation p) 0).
  assert (Hdiv : Z.rem r 90 = 0 <-> exists k : Z, r = 90 * k).
  { rewrite Z.rem_divide by discriminate. unfold Z.divide.
    split; intros [k Hk]; exists k; lia. }
  split.
  - rewrite <- Hdiv. split.
    + intros Hok. destruct (Z.eq_dec (Z.rem r 90) 0) as [E | E]; [exact E|].
      rewrite (constructor_rejects p E) in Hok. discriminate Hok.
    + intros E. rewrite (constructor_accepts p E). reflexivity.
  - intros this Hthis.
    destruct (Z.eq_dec (Z.rem r 90) 0) as [E | E].
    + rewrite (constructor_accepts p E) in Hthis. injection Hthis as <-.
      cbn. repeat split; reflexivity.
    + pose proof (constructor_rejects p E) as Hno. rewrite Hthis in Hno.
      discriminate Hno.
Qed.

(** X2. For rotation 0, 90, 180 or 270 the two tile transforms are
    inverse bijections: worldToLocalTile takes w to t exactly when
    localTileToWorld takes t to w. *)
Theorem X2_tile_transforms_inverse (this : StaticMapEntityComponent)
    (worldTile localTile : Vector) :
  validRotation (rotation this) ->
  (StaticMapEntityComponent.worldToLocalTile this worldTile = Ok localTile
   <-> StaticMapEntityComponent.localTileToWorld this localTile = Ok worldTile).
Proof.
  intros H.
  unfold StaticMapEntityComponent.localTileToWorld,
    StaticMapEntityComponent.worldToLocalTile,
    StaticMapEntityComponent.applyRotationToVector,
    StaticMapEntityComponent.unapplyRotationToVector.
  destruct worldTile as [wx wy], localTile as [tx ty], (origin this) as [ox oy].
  destruct H as [H | [H | [H | H]]]; rewrite H; cbn;
    unfold Vector.addInplace; cbn;
    split; intros E; injection E as E1 E2; do 2 f_equal; lia.
Qed.

Lemma X2_tile_transforms_inverse_witness :
  StaticMapEntityComponent.worldToLocalTile (sampleBuilding 90) (mkVector 3 8)
  = Ok (mkVector 1 2).
Proof.
  apply (X2_tile_transforms_inverse (sampleBuilding 90) (mkVector 3 8) (mkVector 1 2)).
  - right; left; reflexivity.
  - reflexivity.
Defined.

(** X3. For rotation 0, 90, 180 or 270 the two direction transforms are
    inverse bijections of the four directions. *)
Theorem X3_direction_transforms_inverse (this : StaticMapEntityComponent)
    (worldDirection localDirection : enumDirection.t) :
  validRotation (rotation this) ->
  (StaticMapEntityComponent.worldDirectionToLocal this worldDirection
   = Ok localDirection
   <-> StaticMapEntityComponent.localDirectionToWorld this localDirection
       = Ok worldDirection).
Proof.
  intros H.
  unfold StaticMapEntityComponent.localDirectionToWorld,
    StaticMapEntityComponent.worldDirectionToLocal.
  destruct H as [H | [H | [H | H]]]; rewrite H;
    destruct worldDirection, localDirection; cbn;
    split; intros E; (reflexivity || discriminate E).
Qed.

Lemma X3_direction_transforms_inverse_witness :
  StaticMapEntityComponent.worldDirectionToLocal (sampleBuilding 90)
    enumDirection.bottom
  = Ok enumDirection.right.
Proof.
  apply (X3_direction_transforms_inverse (sampleBuilding 90) enumDirection.bottom
           enumDirection.right).
  - right; left; reflexivity.
  - reflexivity.
Defined.

(** X4. For rotation 0, 90, 180 or 270 the rectangle of
    getTileSpaceBounds is the set of world tiles the footprint occupies: a
    world tile lies in it exactly when worldToLocalTile takes it to a local
    tile with 0 <= x < tileSize.x and 0 <= y < tileSize.y. *)
Theorem X4_bounds_are_the_footprint (this : StaticMapEntityComponent)
    (worldTile : Vector) :
  validRotation (rotation this) ->
  exists (r : Rectangle) (localTile : Vector),
    StaticMapEntityComponent.getTileSpaceBounds this = Ok r
    /\ StaticMapEntityComponent.worldToLocalTile this worldTile = Ok localTile
    /\ (containsTile r worldTile <-> inFootprint this localTile).
Proof.
  intros H.
  unfold StaticMapEntityComponent.getTileSpaceBounds,
    StaticMapEntityComponent.worldToLocalTile,
    StaticMapEntityComponent.unapplyRotationToVector, containsTile, inFootprint.
  destruct H as [H | [H | [H | H]]]; rewrite H;
    do 2 eexists; (split; [reflexivity|]); (split; [reflexivity|]);
    cbn; lia.
Qed.

Lemma X4_bounds_are_the_footprint_witness :
  exists (r : Rectangle) (localTile : Vector),
    StaticMapEntityComponent.getTileSpaceBounds (sampleBuilding 270) = Ok r
    /\ StaticMapEntityComponent.worldToLocalTile (sampleBuilding 270) (mkVector 7 6)
       = Ok localTile
    /\ (containsTile r (mkVector 7 6) <-> inFootprint (sampleBuilding 270) localTile).
Proof.
  apply (X4_bounds_are_the_footprint (sampleBuilding 270) (mkVector 7 6)).
  right; right; right; reflexivity.
Defined.

(** X5. For rotation 0, 90, 180 or 270 localTileToWorld is a rigid motion
    of the grid that takes the local tile (0,0) to the origin: it keeps the
    grid distance between any two tiles, so distinct tiles stay distinct and
    neighbours stay neighbours. *)
Theorem X5_local_to_world_rigid (this : StaticMapEntityComponent) (a b : Vector) :
  validRotation (rotation this) ->
  StaticMapEntityComponent.localTileToWorld this (mkVector 0 0) = Ok (origin this)
  /\ exists a' b' : Vector,
       StaticMapEntityComponent.localTileToWorld this a = Ok a'
       /\ StaticMapEntityComponent.localTileToWorld this b = Ok b'
       /\ tileDistance a' b' = tileDistance a b
       /\ (a' = b' -> a = b).
Proof.
  intros H.
  unfold StaticMapEntityComponent.localTileToWorld,
    StaticMapEntityComponent.applyRotationToVector, tileDistance.
  destruct a as [ax ay], b as [bx by_], (origin this) as [ox oy].
  destruct H as [H | [H | [H | H]]]; rewrite H; cbn;
    unfold Vector.addInplace; cbn;
    (split; [reflexivity|]);
    do 2 eexists; (split; [reflexivity|]); (split; [reflexivity|]);
    cbn; (split; [lia|]); intros E; injection E as E1 E2; f_equal; lia.
Qed.

Lemma X5_local_to_world_rigid_witness :
  StaticMapEntityComponent.localTileToWorld (sampleBuilding 180) (mkVector 0 0)
  = Ok (mkVector 5 7).
Proof.
  apply (X5_local_to_world_rigid (sampleBuilding 180) (mkVector 0 0) (mkVector 1 2)).
  right; right; left; reflexivity.
Defined.

(** X6. drawSpriteOnFullEntityBounds draws the sprite once and leaves the
    canvas context as it found it: the context calls it makes after the draw
    undo, in reverse order, the ones it made before; at rotation 0 it makes
    none. *)
Theorem X6_sprite_draw_restores_context (globalConfig : GlobalConfig)
    (halfTileSize : Q) (this : StaticMapEntityComponent)
    (extrudePixels : option Q) (clipping : option bool) :
  exists before draw after,
    drawSpriteOnFullEntityBounds globalConfig halfTileSize this extrudePixels clipping
    = before ++ draw :: after
    /\ isContextCall draw = false
    /\ forallb isContextCall before = true
    /\ List.map undoesCall (rev before) = List.map Some after
    /\ (rotation this = 0 -> before = []).
Proof.
  unfold drawSpriteOnFullEntityBounds.
  destruct (rotation this =? 0) eqn:E.
  - eexists [], _, []. repeat split; reflexivity.
  - eexists [_; _], _, [_; _]. apply Z.eqb_neq in E.
    repeat split; try reflexivity. intros H. contradiction.
Qed.

(** X7. The sprite is drawn with the same width and height at every
    rotation, tileSize * size + 2 * extrudePixels * size on each axis.  The
    caller's clipping flag is honoured at rotation 0 only: a rotated entity
    is drawn unclipped.  At a rotation other than 0 the context is moved to
    the pivot origin * tileSize + halfTileSize, and the sprite's corner
    relative to the pivot is the corner it has at rotation 0. *)
Theorem X7_sprite_size_and_clipping (globalConfig : GlobalConfig)
    (halfTileSize : Q) (this : StaticMapEntityComponent)
    (extrudePixels : option Q) (clipping : option bool) :
  let e := StaticMapEntityComponent.orDefault extrudePixels 0%Q in
  let cornerX := (inject_Z (x (origin this)) * gc_tileSize globalConfig
                  - e * inject_Z (x (tileSize this)))%Q in
  let cornerY := (inject_Z (y (origin this)) * gc_tileSize globalConfig
                  - e * inject_Z (y (tileSize this)))%Q in
  let width := (gc_tileSize globalConfig * inject_Z (x (tileSize this))
                + 2 * e * inject_Z (x (tileSize this)))%Q in
  let height := (gc_tileSize globalConfig * inject_Z (y (tileSize this))
                 + 2 * e * inject_Z (y (tileSize this)))%Q in
  exists pivotX pivotY dx dy,
    filter (fun c => negb (isContextCall c))
      (drawSpriteOnFullEntityBounds globalConfig halfTileSize this extrudePixels
         clipping)
    = [SpriteDrawCached dx dy width height
         (if rotation this =? 0
          then StaticMapEntityComponent.orDefault clipping true
          else false)]
    /\ (pivotX + dx == cornerX)%Q
    /\ (pivotY + dy == cornerY)%Q
    /\ (if rotation this =? 0 then pivotX = 0%Q /\ pivotY = 0%Q
        else head (drawSpriteOnFullEntityBounds globalConfig halfTileSize this
                     extrudePixels clipping)
             = Some (ContextTranslate pivotX pivotY)
             /\ (pivotX == inject_Z (x (origin this)) * gc_tileSize globalConfig
                            + halfTileSize)%Q
             /\ (pivotY == inject_Z (y (origin this)) * gc_tileSize globalConfig
                            + halfTileSize)%Q).
Proof.
  cbv zeta. unfold drawSpriteOnFullEntityBounds.
  destruct (rotation this =? 0).
  - exists 0%Q, 0%Q.
    exists (inject_Z (x (origin this)) * gc_tileSize globalConfig
            - StaticMapEntityComponent.orDefault extrudePixels 0
              * inject_Z (x (tileSize this)))%Q,
           (inject_Z (y (origin this)) * gc_tileSize globalConfig
            - StaticMapEntityComponent.orDefault extrudePixels 0
              * inject_Z (y (tileSize this)))%Q.
    split; [reflexivity|]. split; [ring|]. split; [ring|]. split; reflexivity.
  - exists (inject_Z (x (origin this)) * gc_tileSize globalConfig + halfTileSize)%Q,
           (inject_Z (y (origin this)) * gc_tileSize globalConfig + halfTileSize)%Q,
           (- halfTileSize
            - StaticMapEntityComponent.orDefault extrudePixels 0
              * inject_Z (x (tileSize this)))%Q,
           (- halfTileSize
            - StaticMapEntityComponent.orDefault extrudePixels 0
              * inject_Z (y (tileSize this)))%Q.
    split; [reflexivity|]. split; [ring|]. split; [ring|].
    split; [reflexivity|]. split; reflexivity.
Qed.

(** * Further properties of the item ejector system *)

Lemma bind_Ok_inv {BaseItem World A B : Type} (m : @M BaseItem World A)
    (k : A -> @M BaseItem World B) (w w2 : World) (b : B) (log : list (@Call BaseItem)) :
  bind m k w = Ok (b, w2, log) ->
  exists a w1 log1 log2,
    m w = Ok (a, w1, log1) /\ k a w1 = Ok (b, w2, log2) /\ log = log1 ++ log2.
Proof.
  unfold bind. destruct (m w) as [[[a w1] log1]|]; [|discriminate].
  destruct (k a w1) as [[[b' w2'] log2]|] eqn:Hk; [|discriminate].
  intros H. injection H as <- <- <-.
  exists a, w1, log1, log2. auto.
Qed.

Lemma forEach_cons_inv {BaseItem World A B : Type} (f : A -> @M BaseItem World B)
    (a : A) (l : list A) (w w' : World) (r : list B) (log : list (@Call BaseItem)) :
  forEach f (a :: l) w = Ok (r, w', log) ->
  exists b w1 log1 bs log2,
    f a w = Ok (b, w1, log1)
    /\ forEach f l w1 = Ok (bs, w', log2)
    /\ r = b :: bs /\ log = log1 ++ log2.
Proof.
  cbn [forEach]. intros H.
  apply bind_Ok_inv in H. destruct H as (b & w1 & log1 & logr & Hb & Hrest & ->).
  apply bind_Ok_inv in Hrest.
  destruct Hrest as (bs & w2 & log2 & log3 & Hbs & Hret & ->).
  unfold ret in Hret. injection Hret as <- <- <-.
  exists b, w1, log1, bs, log2. rewrite app_nil_r. auto.
Qed.

Lemma forEach_cons_Ok {BaseItem World A B : Type} (f : A -> @M BaseItem World B)
    (a : A) (l : list A) (w w1 w2 : World) (b : B) (bs : list B)
    (log1 log2 : list (@Call BaseItem)) :
  f a w = Ok (b, w1, log1) ->
  forEach f l w1 = Ok (bs, w2, log2) ->
  forEach f (a :: l) w = Ok (b :: bs, w2, log1 ++ log2).
Proof.
  intros Hb Hbs. cbn [forEach]. unfold bind, ret.
  rewrite Hb, Hbs, app_nil_r. reflexivity.
Qed.

Lemma forEach_app {BaseItem World A B : Type} (f : A -> @M BaseItem World B)
    (l1 l2 : list A) (w w1 w2 : World) (r1 r2 : list B)
    (log1 log2 : list (@Call BaseItem)) :
  forEach f l1 w = Ok (r1, w1, log1) ->
  forEach f l2 w1 = Ok (r2, w2, log2) ->
  forEach f (l1 ++ l2) w = Ok (r1 ++ r2, w2, log1 ++ log2).
Proof.
  revert w r1 log1. induction l1 as [|a l1 IH]; intros w r1 log1 H1 H2.
  - cbn in H1. unfold ret in H1. injection H1 as <- <- <-. exact H2.
  - apply forEach_cons_inv in H1.
    destruct H1 as (b & wa & loga & bs & logb & Hb & Hbs & -> & ->).
    cbn [app]. rewrite <- app_assoc.
    eapply forEach_cons_Ok; [exact Hb|].
    exact (IH wa bs logb Hbs H2).
Qed.

Lemma forEach_Forall2 {BaseItem World A B : Type} (f : A -> @M BaseItem World B)
    (R : A -> B -> Prop) :
  (forall a w b w' log, f a w = Ok (b, w', log) -> R a b) ->
  forall l w r w' log, forEach f l w = Ok (r, w', log) -> Forall2 R l r.
Proof.
  intros HR. induction l as [|a l IH]; intros w r w' log H.
  - cbn in H. unfold ret in H. injection H as <- _ _. constructor.
  - apply forEach_cons_inv in H.
    destruct H as (b & w1 & log1 & bs & log2 & Hb & Hbs & -> & _).
    constructor; [exact (HR a w b w1 log1 Hb) | exact (IH w1 bs w' log2 Hbs)].
Qed.

Lemma forEach_throws {BaseItem World A B : Type} (f : A -> @M BaseItem World B)
    (l : list A) (a : A) :
  In a l ->
  (forall w, isOk (f a w) = false) ->
  forall w, isOk (forEach f l w) = false.
Proof.
  intros Hin Hthrows. induction l as [|a0 l IH]; [contradiction|].
  intros w. cbn [forEach]. unfold bind.
  destruct Hin as [-> | Hin].
  - specialize (Hthrows w). destruct (f a w) as [[[b w1] log1]|]; [discriminate|].
    reflexivity.
  - destruct (f a0 w) as [[[b w1] log1]|]; [|reflexivity].
    specialize (IH Hin w1).
    destruct (forEach f l w1) as [[[bs w2] log2]|]; [discriminate|reflexivity].
Qed.

Lemma updateSlot_evolves {BaseItem World : Type}
    (root : @GameRoot BaseItem World) (progressGrowth : Q)
    (staticComp : option StaticMapEntityComponent)
    (slot slot' : @ItemEjectorSlot BaseItem) (w w' : World)
    (log : list (@Call BaseItem)) :
  updateSlot root progressGrowth staticComp slot w = Ok (slot', w', log) ->
  slotEvolves progressGrowth slot slot'.
Proof.
  intros Hrun. unfold slotEvolves.
  destruct (item slot) as [it|] eqn:Hitem.
  - destruct (updateSlot_outcome root progressGrowth staticComp slot slot' it w w' log
                Hitem Hrun) as (Hpos & Hdir & Hprogress & Hcases).
    repeat split; auto.
    destruct Hcases as [[Hkept _] | [Hcleared _]]; auto.
  - unfold updateSlot in Hrun. rewrite Hitem in Hrun.
    unfold ret in Hrun. injection Hrun as <- _ _. auto.
Qed.

(** X8. While every slot of every entity is idle or still below 1 after
    its advance, a whole pass of update returns without a single call on the
    grid or on a receiver and leaves the store as it was. *)
Theorem X8_update_silent_while_ejecting {BaseItem World : Type}
    (root : @GameRoot BaseItem World) (globalConfig : GlobalConfig)
    (allEntities : list (@Entity BaseItem World)) (w : World) :
  (forall entity, In entity allEntities ->
     exists ejectorComp,
       ItemEjector (components entity) = Some ejectorComp
       /\ forall slot, In slot (slots ejectorComp) ->
            item slot = None
            \/ (Qmin 1 (progress slot + progressGrowthAt root globalConfig w) < 1)%Q) ->
  exists entities', update root globalConfig allEntities w = Ok (entities', w, []).
Proof.
  intros Hall. apply update_silent_while_ejecting. exact Hall.
Qed.

Lemma X8_update_silent_while_ejecting_witness :
  exists entities',
    update (sampleRoot (Some (sampleReceiver (Some true) None None))) sampleConfig
      [sampleEmitter (Some "shape"%string) (1 # 2); sampleEmitter None 1] []
    = Ok (entities', [], []).
Proof.
  apply (X8_update_silent_while_ejecting
           (sampleRoot (Some (sampleReceiver (Some true) None None))) sampleConfig
           [sampleEmitter (Some "shape"%string) (1 # 2); sampleEmitter None 1] []).
  intros entity [<- | [<- | []]]; eexists; (split; [reflexivity|]);
    intros slot [<- | []].
  - right. reflexivity.
  - left. reflexivity.
Defined.

(** X9. A pass of update that returns keeps the entity list in shape:
    the same entities in the same order, each with its other components
    untouched and with as many slots as before, in the same order, at the
    same positions and directions.  An idle slot is left exactly as it was;
    a slot holding an item gets the advanced progress min(1, progress +
    growth) and either keeps that item or ends empty: a pass never puts an
    item into a slot and never swaps one item for another. *)
Theorem X9_update_keeps_shape {BaseItem World : Type}
    (root : @GameRoot BaseItem World) (globalConfig : GlobalConfig)
    (allEntities entities' : list (@Entity BaseItem World)) (w w' : World)
    (log : list (@Call BaseItem)) :
  update root globalConfig allEntities w = Ok (entities', w', log) ->
  Forall2 (entityEvolves (progressGrowthAt root globalConfig w)) allEntities entities'.
Proof.
  unfold update, bind, reads. fold (progressGrowthAt root globalConfig w).
  set (growth := progressGrowthAt root globalConfig w).
  destruct (forEach (updateEntity root growth) allEntities w)
    as [[[es w1] log1]|] eqn:Hrun; [|discriminate].
  intros H. injection H as <- _ _.
  eapply forEach_Forall2; [|exact Hrun].
  intros e we e' we' loge He.
  unfold updateEntity in He.
  apply bind_Ok_inv in He. destruct He as (comp & wa & loga & logb & Hcomp & He & _).
  destruct (ItemEjector (components e)) as [comp0|] eqn:Hej; [|discriminate Hcomp].
  unfold deref, ret in Hcomp. injection Hcomp as <- <- <-.
  apply bind_Ok_inv in He. destruct He as (ss & w2 & log3 & log4 & Hss & Hret & _).
  unfold ret in Hret. injection Hret as <- _ _.
  unfold entityEvolves, setSlots. cbn.
  repeat split; try reflexivity.
  exists comp0. eexists. split; [exact Hej|]. split; [reflexivity|]. cbn.
  eapply forEach_Forall2; [|exact Hss].
  intros s ws s' ws' logs Hs. eapply updateSlot_evolves. exact Hs.
Qed.

Lemma X9_update_keeps_shape_witness :
  Forall2 (entityEvolves
             (progressGrowthAt (sampleRoot (Some (sampleReceiver (Some true) None None)))
                sampleConfig []))
    [sampleEmitter (Some "shape"%string) (9 # 10)] [sampleEmitter None 1].
Proof.
  apply (X9_update_keeps_shape
           (sampleRoot (Some (sampleReceiver (Some true) None None))) sampleConfig
           [sampleEmitter (Some "shape"%string) (9 # 10)] [sampleEmitter None 1]
           [] [(2%nat, "shape"%string)]
           [CallGetTileContent (mkVector 1 0);
            CallFindMatchingSlot 2 (mkVector 0 0) enumDirection.right;
            CallCanAcceptItem 2 0 "shape"%string;
            CallCanAcceptNewItem 2 enumDirection.left true;
            CallTakeNewItem 2 "shape"%string enumDirection.left]).
  vm_compute. reflexivity.
Defined.

Lemma advance_between (p g : Q) :
  (0 <= g)%Q -> (p <= 1)%Q ->
  (p <= Qmin 1 (p + g))%Q /\ (Qmin 1 (p + g) <= 1)%Q.
Proof.
  intros Hg Hp. split.
  - apply Q.min_glb; [exact Hp|].
    rewrite <- (Qplus_0_r p) at 1. apply Qplus_le_r. exact Hg.
  - apply Q.le_min_l.
Qed.

(** X10. The progress of a slot is kept within [0, 1] and never goes
    back: starting from a progress between 0 and 1, under a growth that is
    not negative, any number of ticks that return leave a progress that is
    at least the old one and at most 1. *)
Theorem X10_progress_monotone_and_clamped {BaseItem World : Type}
    (root : @GameRoot BaseItem World) (progressGrowth : Q)
    (staticComp : option StaticMapEntityComponent) (n : nat)
    (slot slot' : @ItemEjectorSlot BaseItem) (w w' : World)
    (log : list (@Call BaseItem)) :
  (0 <= progressGrowth)%Q ->
  (0 <= progress slot)%Q -> (progress slot <= 1)%Q ->
  repeatUpdateSlot root progressGrowth staticComp n slot w = Ok (slot', w', log) ->
  (progress slot <= progress slot')%Q /\ (progress slot' <= 1)%Q.
Proof.
  intros Hg. revert slot w log.
  induction n as [|n IH]; intros slot w log H0 H1 Hrun.
  - cbn in Hrun. unfold ret in Hrun. injection Hrun as <- _ _.
    split; [apply Qle_refl | exact H1].
  - cbn [repeatUpdateSlot] in Hrun. apply bind_Ok_inv in Hrun.
    destruct Hrun as (s1 & w1 & log1 & log2 & Hstep & Hrest & _).
    apply updateSlot_evolves in Hstep. destruct Hstep as (_ & _ & Hstep).
    assert (Hs1 : (progress slot <= progress s1)%Q /\ (progress s1 <= 1)%Q).
    { destruct (item slot).
      - destruct Hstep as [-> _]. apply advance_between; assumption.
      - subst s1. split; [apply Qle_refl | exact H1]. }
    destruct Hs1 as [Hlow Hhigh].
    destruct (IH s1 w1 log2 (Qle_trans _ _ _ H0 Hlow) Hhigh Hrest) as [Hlow' Hhigh'].
    split; [exact (Qle_trans _ _ _ Hlow Hlow') | exact Hhigh'].
Qed.

Lemma X10_progress_monotone_and_clamped_witness :
  (9 # 10 <= 1)%Q /\ (1 <= 1)%Q.
Proof.
  apply (X10_progress_monotone_and_clamped
           (sampleRoot (Some (sampleReceiver (Some false) None None))) (1 # 4)
           (Some (sampleStatic (mkVector 0 0) 0)) 2
           (sampleSlot (Some "shape"%string) (9 # 10))
           (sampleSlot (Some "shape"%string) 1) [] []
           ([CallGetTileContent (mkVector 1 0);
             CallFindMatchingSlot 2 (mkVector 0 0) enumDirection.right;
             CallCanAcceptItem 2 0 "shape"%string;
             CallCanAcceptNewItem 2 enumDirection.left false]
            ++ [CallGetTileContent (mkVector 1 0);
                CallFindMatchingSlot 2 (mkVector 0 0) enumDirection.right;
                CallCanAcceptItem 2 0 "shape"%string;
                CallCanAcceptNewItem 2 enumDirection.left false])).
  - discriminate.
  - discriminate.
  - discriminate.
  - vm_compute. reflexivity.
Defined.

(** X11. update throws as soon as one entity of its list has no
    ItemEjector component, whatever the other entities are. *)
Theorem X11_update_needs_ejector {BaseItem World : Type}
    (root : @GameRoot BaseItem World) (globalConfig : GlobalConfig)
    (allEntities : list (@Entity BaseItem World)) (entity : @Entity BaseItem World)
    (w : World) :
  In entity allEntities ->
  ItemEjector (components entity) = None ->
  isOk (update root globalConfig allEntities w) = false.
Proof.
  intros Hin Hnone. unfold update, bind, reads.
  pose proof (forEach_throws
                (updateEntity root (progressGrowthAt root globalConfig w))
                allEntities entity Hin) as H.
  unfold progressGrowthAt in H.
  assert (Hthrows : forall w0,
             isOk (updateEntity root
                     (getBeltBaseSpeed (hubGoals root) w / (1 # 2)
                      * gc_physicsDeltaSeconds globalConfig) entity w0) = false).
  { intros w0. unfold updateEntity, bind, deref. rewrite Hnone. reflexivity. }
  specialize (H Hthrows w).
  destruct (forEach _ allEntities w) as [[[es w1] log1]|];
    [discriminate H | reflexivity].
Qed.

Lemma X11_update_needs_ejector_witness :
  isOk (update (sampleRoot None) sampleConfig
          [sampleEmitter None 0; sampleReceiver (Some true) None None] [])
  = false.
Proof.
  apply (X11_update_needs_ejector (sampleRoot None) sampleConfig
           [sampleEmitter None 0; sampleReceiver (Some true) None None]
           (sampleReceiver (Some true) None None) []).
  - right; left; reflexivity.
  - reflexivity.
Defined.

(** X12. The StaticMapEntity component of an emitter is read only when a
    slot's item has arrived: on an entity without it, a tick of a slot
    returns exactly when the slot is idle or still below 1 after its advance,
    and throws otherwise. *)
Theorem X12_static_needed_on_arrival_only {BaseItem World : Type}
    (root : @GameRoot BaseItem World) (progressGrowth : Q)
    (slot : @ItemEjectorSlot BaseItem) (w : World) :
  isOk (updateSlot root progressGrowth None slot w) = true
  <-> item slot = None \/ (Qmin 1 (progress slot + progressGrowth) < 1)%Q.
Proof.
  unfold updateSlot. destruct (item slot) as [it|].
  - cbn [progress setProgress].
    destruct (Qltb (Qmin 1 (progress slot + progressGrowth)) 1) eqn:E.
    + apply Qltb_true_iff in E. split; [intros _; right; exact E | reflexivity].
    + apply Qltb_false_iff in E. cbn. split; [discriminate|].
      intros [H | H]; [discriminate H | contradiction].
  - split; [intros _; left; reflexivity | reflexivity].
Qed.

Lemma transforms_return (this : StaticMapEntityComponent) (v : Vector)
    (d : enumDirection.t) :
  validRotation (rotation this) ->
  (exists a, StaticMapEntityComponent.localTileToWorld this v = Ok a)
  /\ (exists b, StaticMapEntityComponent.worldToLocalTile this v = Ok b)
  /\ (exists c, StaticMapEntityComponent.localDirectionToWorld this d = Ok c)
  /\ (exists e, StaticMapEntityComponent.worldDirectionToLocal this d = Ok e).
Proof.
  intros H.
  unfold StaticMapEntityComponent.localTileToWorld,
    StaticMapEntityComponent.worldToLocalTile,
    StaticMapEntityComponent.localDirectionToWorld,
    StaticMapEntityComponent.worldDirectionToLocal,
    StaticMapEntityComponent.applyRotationToVector,
    StaticMapEntityComponent.unapplyRotationToVector.
  destruct H as [H | [H | [H | H]]]; rewrite H; cbn;
    repeat split; eexists; reflexivity.
Qed.

Lemma ejectTarget_returns {BaseItem : Type} (staticComp : StaticMapEntityComponent)
    (slot : @ItemEjectorSlot BaseItem) :
  validRotation (rotation staticComp) ->
  exists tile d, ejectTarget staticComp slot = Ok (tile, d).
Proof.
  intros H. unfold ejectTarget.
  destruct (transforms_return staticComp (pos slot) (direction slot) H)
    as ([a Ha] & _ & [c Hc] & _).
  rewrite Ha, Hc. cbn. do 2 eexists. reflexivity.
Qed.

Lemma updateSlot_returns {BaseItem World : Type}
    (root : @GameRoot BaseItem World) (progressGrowth : Q)
    (staticComp : StaticMapEntityComponent)
    (slot : @ItemEjectorSlot BaseItem) (w : World) :
  wellFormedGrid root ->
  validRotation (rotation staticComp) ->
  exists slot' w' log,
    updateSlot root progressGrowth (Some staticComp) slot w = Ok (slot', w', log).
Proof.
  intros Hgrid Hvalid. unfold updateSlot.
  destruct (item slot) as [it|]; [|do 3 eexists; reflexivity].
  cbn [progress setProgress].
  destruct (Qltb _ 1); [do 3 eexists; reflexivity|].
  unfold bind, deref, ret, liftOutcome, query.
  destruct (ejectTarget_returns staticComp
              (setProgress slot (Qmin 1 (progress slot + progressGrowth))) Hvalid)
    as (tile & d & Htarget).
  rewrite Htarget. cbn -[tryPassOverItem].
  destruct (getTileContent root w tile) as [target|] eqn:Hcontent;
    [|do 3 eexists; reflexivity].
  destruct (ItemAcceptor (components target)) as [acceptor|] eqn:Hacceptor;
    [|do 3 eexists; reflexivity].
  destruct (Hgrid w tile target acceptor Hcontent Hacceptor)
    as (targetStatic & Hstatic & Htvalid).
  rewrite Hstatic.
  destruct (transforms_return targetStatic tile d Htvalid)
    as (_ & [lt Hlt] & _ & [ld Hld]).
  rewrite Hlt, Hld. cbn -[tryPassOverItem].
  destruct (findMatchingSlot acceptor w lt ld) as [ms|];
    [|do 3 eexists; reflexivity].
  cbn -[tryPassOverItem].
  destruct (canAcceptItem acceptor w (index ms) it); cbn -[tryPassOverItem];
    [|do 3 eexists; reflexivity].
  destruct (tryPassOverItem_returns root it target (index ms) (acceptedDirection ms) w)
    as (result & w1 & l1 & Hpass & _).
  rewrite Hpass. destruct result; do 3 eexists; reflexivity.
Qed.

Lemma forEach_returns {BaseItem World A B : Type} (f : A -> @M BaseItem World B)
    (l : list A) :
  (forall a, In a l -> forall w, exists b w' log, f a w = Ok (b, w', log)) ->
  forall w, exists bs w' log, forEach f l w = Ok (bs, w', log).
Proof.
  induction l as [|a l IH]; intros Hall w.
  - do 3 eexists. reflexivity.
  - destruct (Hall a (or_introl eq_refl) w) as (b & w1 & log1 & Hb).
    destruct (IH (fun a' Hin => Hall a' (or_intror Hin)) w1) as (bs & w2 & log2 & Hbs).
    do 3 eexists. eapply forEach_cons_Ok; eassumption.
Qed.

(** X13. On a well-formed factory a pass of update never throws: when
    every emitter of the list has its ItemEjector and its StaticMapEntity
    with rotation 0, 90, 180 or 270, and every entity of the grid that
    accepts items is placed with such a rotation, update returns the new
    entity list, whatever the receivers answer. *)
Theorem X13_update_returns_on_well_formed {BaseItem World : Type}
    (root : @GameRoot BaseItem World) (globalConfig : GlobalConfig)
    (allEntities : list (@Entity BaseItem World)) (w : World) :
  wellFormedGrid root ->
  Forall wellFormedEmitter allEntities ->
  exists entities' w' log,
    update root globalConfig allEntities w = Ok (entities', w', log).
Proof.
  intros Hgrid Hall. unfold update, bind, reads.
  destruct (forEach_returns
              (updateEntity root (progressGrowthAt root globalConfig w)) allEntities)
    with (w := w) as (es & w1 & log1 & Hes).
  - intros e Hin w0.
    rewrite Forall_forall in Hall.
    destruct (Hall e Hin) as (comp & sc & Hcomp & Hsc & Hvalid).
    unfold updateEntity, bind, deref, ret. rewrite Hcomp, Hsc.
    destruct (forEach_returns
                (updateSlot root (progressGrowthAt root globalConfig w) (Some sc))
                (slots comp)) with (w := w0) as (ss & w2 & log2 & Hss).
    + intros s _ ws. apply updateSlot_returns; assumption.
    + rewrite Hss. do 3 eexists. reflexivity.
  - unfold progressGrowthAt in Hes. rewrite Hes. do 3 eexists. reflexivity.
Qed.

Lemma X13_update_returns_on_well_formed_witness :
  exists entities' w' log,
    update (sampleRoot (Some (sampleReceiver (Some false) (Some true) None)))
      sampleConfig
      [sampleEmitter (Some "shape"%string) 1; sampleEmitter (Some "shape"%string) 0] []
    = Ok (entities', w', log).
Proof.
  apply (X13_update_returns_on_well_formed
           (sampleRoot (Some (sampleReceiver (Some false) (Some true) None)))
           sampleConfig
           [sampleEmitter (Some "shape"%string) 1;
            sampleEmitter (Some "shape"%string) 0] []).
  - intros w tile target acceptor H _. cbn in H.
    destruct ((x tile =? 1) && (y tile =? 0)); [|discriminate H].
    injection H as <-. eexists. split; [reflexivity | left; reflexivity].
  - repeat constructor;
      (do 2 eexists; split; [reflexivity|]; split; [reflexivity | left; reflexivity]).
Defined.

(** X14. update works through its list in order, threading the store:
    when a pass over a first list returns and a pass over a second list,
    started in the store the first one left, returns too, and the belt speed
    is the same in both stores, then one pass over the two lists joined
    returns the two results joined, the second store, and the first log
    followed by the second. *)
Theorem X14_update_in_list_order {BaseItem World : Type}
    (root : @GameRoot BaseItem World) (globalConfig : GlobalConfig)
    (first second first' second' : list (@Entity BaseItem World))
    (w w1 w2 : World) (log1 log2 : list (@Call BaseItem)) :
  getBeltBaseSpeed (hubGoals root) w1 = getBeltBaseSpeed (hubGoals root) w ->
  update root globalConfig first w = Ok (first', w1, log1) ->
  update root globalConfig second w1 = Ok (second', w2, log2) ->
  update root globalConfig (first ++ second) w
  = Ok (first' ++ second', w2, log1 ++ log2).
Proof.
  intros Hspeed H1 H2. unfold update, bind, reads in *.
  rewrite Hspeed in H2.
  set (growth := (getBeltBaseSpeed (hubGoals root) w / (1 # 2)
                  * gc_physicsDeltaSeconds globalConfig)%Q) in *.
  destruct (forEach (updateEntity root growth) first w)
    as [[[r1 wa] la]|] eqn:E1; [|discriminate H1].
  destruct (forEach (updateEntity root growth) second w1)
    as [[[r2 wb] lb]|] eqn:E2; [|discriminate H2].
  cbn in H1, H2. injection H1 as <- <- <-. injection H2 as <- <- <-.
  rewrite (forEach_app _ _ _ _ _ _ _ _ _ _ E1 E2). reflexivity.
Qed.

Lemma X14_update_in_list_order_witness :
  update (sampleRoot (Some (sampleReceiver None (Some true) None))) sampleConfig
    ([sampleEmitter (Some "first"%string) 1] ++ [sampleEmitter (Some "second"%string) 1])
    []
  = Ok ([sampleEmitter None 1] ++ [sampleEmitter None 1],
        [(2%nat, "second"%string); (2%nat, "first"%string)],
        [CallGetTileContent (mkVector 1 0);
         CallFindMatchingSlot 2 (mkVector 0 0) enumDirection.right;
         CallCanAcceptItem 2 0 "first"%string;
         CallTryTakeItem 2 "first"%string 0 enumDirection.left true]
        ++ [CallGetTileContent (mkVector 1 0);
            CallFindMatchingSlot 2 (mkVector 0 0) enumDirection.right;
            CallCanAcceptItem 2 0 "second"%string;
            CallTryTakeItem 2 "second"%string 0 enumDirection.left true]).
Proof.
  apply (X14_update_in_list_order
           (sampleRoot (Some (sampleReceiver None (Some true) None))) sampleConfig
           [sampleEmitter (Some "first"%string) 1]
           [sampleEmitter (Some "second"%string) 1]
           [sampleEmitter None 1] [sampleEmitter None 1]
           [] [(2%nat, "first"%string)]
           [(2%nat, "second"%string); (2%nat, "first"%string)]).
  - reflexivity.
  - vm_compute. reflexivity.
  - vm_compute. reflexivity.
Defined.

(** Every way a tick of a slot that holds an item can return. *)
Lemma updateSlot_run {BaseItem World : Type}
    (root : @GameRoot BaseItem World) (progressGrowth : Q)
    (staticComp : option StaticMapEntityComponent)
    (slot slot' : @ItemEjectorSlot BaseItem) (it : BaseItem) (w w' : World)
    (log : list (@Call BaseItem)) :
  item slot = Some it ->
  updateSlot root progressGrowth staticComp slot w = Ok (slot', w', log) ->
  let advanced := setProgress slot (Qmin 1 (progress slot + progressGrowth)) in
  (slot' = advanced /\ w' = w /\ log = [])
  \/ exists sc tile d,
       staticComp = Some sc
       /\ ejectTarget sc slot = Ok (tile, d)
       /\ ((getTileContent root w tile = None
            /\ slot' = advanced /\ w' = w /\ log = [CallGetTileContent tile])
           \/ exists target,
                getTileContent root w tile = Some target
                /\ ((ItemAcceptor (components target) = None
                     /\ slot' = advanced /\ w' = w /\ log = [CallGetTileContent tile])
                    \/ exists acceptor targetStatic localTile localDirection,
                         ItemAcceptor (components target) = Some acceptor
                         /\ StaticMapEntity (components target) = Some targetStatic
                         /\ StaticMapEntityComponent.worldToLocalTile targetStatic tile
                            = Ok localTile
                         /\ StaticMapEntityComponent.worldDirectionToLocal targetStatic d
                            = Ok localDirection
                         /\ ((findMatchingSlot acceptor w localTile localDirection = None
                              /\ slot' = advanced /\ w' = w
                              /\ log = [CallGetTileContent tile;
                                        CallFindMatchingSlot (uid target) localTile
                                          localDirection])
                             \/ exists ms,
                                  findMatchingSlot acceptor w localTile localDirection
                                  = Some ms
                                  /\ ((canAcceptItem acceptor w (index ms) it = false
                                       /\ slot' = advanced /\ w' = w
                                       /\ log = [CallGetTileContent tile;
                                                 CallFindMatchingSlot (uid target)
                                                   localTile localDirection;
                                                 CallCanAcceptItem (uid target)
                                                   (index ms) it])
                                      \/ exists result passLog,
                                           canAcceptItem acceptor w (index ms) it = true
                                           /\ tryPassOverItem root it target (index ms)
                                                (acceptedDirection ms) w
                                              = Ok (result, w', passLog)
                                           /\ slot' = (if result
                                                       then setItem advanced None
                                                       else advanced)
                                           /\ log = [CallGetTileContent tile;
                                                     CallFindMatchingSlot (uid target)
                                                       localTile localDirection;
                                                     CallCanAcceptItem (uid target)
                                                       (index ms) it] ++ passLog)))).
Proof.
  intros Hitem Hrun. cbv zeta.
  unfold updateSlot in Hrun. rewrite Hitem in Hrun.
  cbn [progress setProgress] in Hrun.
  destruct (Qltb (Qmin 1 (progress slot + progressGrowth)) 1).
  - unfold ret in Hrun. injection Hrun as <- <- <-. left. auto.
  - right.
    unfold bind, deref, ret, liftOutcome, query in Hrun.
    destruct staticComp as [sc|]; [|discriminate Hrun].
    rewrite ejectTarget_setProgress in Hrun.
    destruct (ejectTarget sc slot) as [[tile d]|] eqn:Htarget; [|discriminate Hrun].
    cbn -[tryPassOverItem] in Hrun.
    exists sc, tile, d. split; [reflexivity|]. split; [exact Htarget|].
    destruct (getTileContent root w tile) as [target|] eqn:Hgrid;
      [right; exists target; split; [reflexivity|]
      | left; injection Hrun as <- <- <-; auto].
    destruct (ItemAcceptor (components target)) as [acceptor|] eqn:Hacceptor;
      [right | left; injection Hrun as <- <- <-; auto].
    destruct (StaticMapEntity (components target)) as [targetStatic|] eqn:Hstatic;
      [|discriminate Hrun].
    destruct (StaticMapEntityComponent.worldToLocalTile targetStatic tile)
      as [localTile|] eqn:Htile; [|discriminate Hrun].
    destruct (StaticMapEntityComponent.worldDirectionToLocal targetStatic d)
      as [localDirection|] eqn:Hdir; [|discriminate Hrun].
    cbn -[tryPassOverItem] in Hrun.
    exists acceptor, targetStatic, localTile, localDirection.
    split; [reflexivity|]. split; [reflexivity|].
    split; [exact Htile|]. split; [exact Hdir|].
    destruct (findMatchingSlot acceptor w localTile localDirection) as [ms|] eqn:Hms;
      [right; exists ms; split; [reflexivity|]
      | left; injection Hrun as <- <- <-; auto].
    cbn -[tryPassOverItem] in Hrun.
    destruct (canAcceptItem acceptor w (index ms) it) eqn:Hcan;
      cbn -[tryPassOverItem] in Hrun;
      [right | left; injection Hrun as <- <- <-; auto].
    destruct (tryPassOverItem root it target (index ms) (acceptedDirection ms) w)
      as [[[result w1] passLog]|] eqn:Hpass; [|discriminate Hrun].
    exists result, passLog. split; [reflexivity|].
    destruct result; cbn in Hrun; injection Hrun as <- <- <-;
      rewrite app_nil_r; auto.
Qed.

(** X15. An item leaves its slot only through the full negotiation with
    the entity on the target tile: when a tick ends with the slot emptied,
    the grid was asked for the tile next to the slot's world tile in the
    slot's world direction and returned an entity with an ItemAcceptor; that
    acceptor was asked for a matching slot with the tile and the direction
    taken to the entity's own frame, and said that the slot found can accept
    the item; and the handoff to this very entity answered true.  These are
    the calls of the tick, in this order, and the one accepting call among
    them hands the slot's item to that entity. *)
Theorem X15_item_leaves_through_negotiation {BaseItem World : Type}
    (root : @GameRoot BaseItem World) (progressGrowth : Q)
    (staticComp : option StaticMapEntityComponent)
    (slot slot' : @ItemEjectorSlot BaseItem) (it : BaseItem) (w w' : World)
    (log : list (@Call BaseItem)) :
  item slot = Some it ->
  updateSlot root progressGrowth staticComp slot w = Ok (slot', w', log) ->
  item slot' = None ->
  exists sc tile d target acceptor targetStatic localTile localDirection ms passLog c,
    staticComp = Some sc
    /\ ejectTarget sc slot = Ok (tile, d)
    /\ getTileContent root w tile = Some target
    /\ ItemAcceptor (components target) = Some acceptor
    /\ StaticMapEntity (components target) = Some targetStatic
    /\ StaticMapEntityComponent.worldToLocalTile targetStatic tile = Ok localTile
    /\ StaticMapEntityComponent.worldDirectionToLocal targetStatic d = Ok localDirection
    /\ findMatchingSlot acceptor w localTile localDirection = Some ms
    /\ canAcceptItem acceptor w (index ms) it = true
    /\ tryPassOverItem root it target (index ms) (acceptedDirection ms) w
       = Ok (true, w', passLog)
    /\ log = [CallGetTileContent tile;
              CallFindMatchingSlot (uid target) localTile localDirection;
              CallCanAcceptItem (uid target) (index ms) it] ++ passLog
    /\ filter accepting log = [c]
    /\ handedOver c = Some (uid target, it).
Proof.
  intros Hitem Hrun Hcleared.
  pose proof (updateSlot_run root progressGrowth staticComp slot slot' it w w' log
                Hitem Hrun) as H.
  cbv zeta in H.
  assert (Hadv : forall p, item (setProgress slot p) <> None).
  { intros p. cbn. rewrite Hitem. discriminate. }
  destruct H as [(-> & _) | (sc & tile & d & Hsc & Htarget & H)];
    [exfalso; exact (Hadv _ Hcleared)|].
  destruct H as [(_ & -> & _) | (target & Hgrid & H)];
    [exfalso; exact (Hadv _ Hcleared)|].
  destruct H as [(_ & -> & _)
                | (acceptor & targetStatic & lt & ld & Hacc & Hstatic & Hlt & Hld & H)];
    [exfalso; exact (Hadv _ Hcleared)|].
  destruct H as [(_ & -> & _) | (ms & Hms & H)];
    [exfalso; exact (Hadv _ Hcleared)|].
  destruct H as [(_ & -> & _) | (result & passLog & Hcan & Hpass & -> & ->)];
    [exfalso; exact (Hadv _ Hcleared)|].
  destruct result; [|exfalso; exact (Hadv _ Hcleared)].
  destruct (tryPassOverItem_accepts_once _ _ _ _ _ _ _ _ Hpass) as (c & Hc & Hover).
  exists sc, tile, d, target, acceptor, targetStatic, lt, ld, ms, passLog, c.
  repeat split; auto.
Qed.

Lemma X15_item_leaves_through_negotiation_witness :
  exists sc tile d target acceptor targetStatic localTile localDirection ms passLog c,
    Some (sampleStatic (mkVector 0 0) 0) = Some sc
    /\ ejectTarget sc (sampleSlot (Some "shape"%string) 1) = Ok (tile, d)
    /\ getTileContent (sampleRoot (Some (sampleReceiver (Some true) None None))) [] tile
       = Some target
    /\ ItemAcceptor (components target) = Some acceptor
    /\ StaticMapEntity (components target) = Some targetStatic
    /\ StaticMapEntityComponent.worldToLocalTile targetStatic tile = Ok localTile
    /\ StaticMapEntityComponent.worldDirectionToLocal targetStatic d = Ok localDirection
    /\ findMatchingSlot acceptor [] localTile localDirection = Some ms
    /\ canAcceptItem acceptor [] (index ms) "shape"%string = true
    /\ tryPassOverItem (sampleRoot (Some (sampleReceiver (Some true) None None)))
         "shape"%string target (index ms) (acceptedDirection ms) []
       = Ok (true, [(2%nat, "shape"%string)], passLog)
    /\ [CallGetTileContent (mkVector 1 0);
        CallFindMatchingSlot 2 (mkVector 0 0) enumDirection.right;
        CallCanAcceptItem 2 0 "shape"%string;
        CallCanAcceptNewItem 2 enumDirection.left true;
        CallTakeNewItem 2 "shape"%string enumDirection.left]
       = [CallGetTileContent tile;
          CallFindMatchingSlot (uid target) localTile localDirection;
          CallCanAcceptItem (uid target) (index ms) "shape"%string] ++ passLog
    /\ filter accepting
         [CallGetTileContent (mkVector 1 0);
          CallFindMatchingSlot 2 (mkVector 0 0) enumDirection.right;
          CallCanAcceptItem 2 0 "shape"%string;
          CallCanAcceptNewItem 2 enumDirection.left true;
          CallTakeNewItem 2 "shape"%string enumDirection.left] = [c]
    /\ handedOver c = Some (uid target, "shape"%string).
Proof.
  apply (X15_item_leaves_through_negotiation
           (sampleRoot (Some (sampleReceiver (Some true) None None))) (1 # 10)
           (Some (sampleStatic (mkVector 0 0) 0))
           (sampleSlot (Some "shape"%string) 1)
           (mkItemEjectorSlot (mkVector 0 0) enumDirection.right None 1)
           "shape"%string [] [(2%nat, "shape"%string)]).
  - reflexivity.
  - vm_compute. reflexivity.
  - reflexivity.
Defined.

(** X16. A Belt with room wins whatever else the receiver carries: when
    the receiver has a Belt whose canAcceptNewItem answers true, the handoff
    is the two calls canAcceptNewItem and takeNewItem on it, the store is
    what takeNewItem leaves, the result is true, and neither an
    ItemProcessor nor an UndergroundBelt of the same entity is asked. *)
Theorem X16_belt_with_room_wins {BaseItem World : Type}
    (root : @GameRoot BaseItem World) (it : BaseItem)
    (receiver : @Entity BaseItem World) (beltComp : @BeltComponent BaseItem World)
    (slotIndex : nat) (localDirection : enumDirection.t) (w : World) :
  Belt (components receiver) = Some beltComp ->
  canAcceptNewItem beltComp w localDirection = true ->
  tryPassOverItem root it receiver slotIndex localDirection w
  = Ok (true, takeNewItem beltComp it localDirection w,
        [CallCanAcceptNewItem (uid receiver) localDirection true;
         CallTakeNewItem (uid receiver) it localDirection]).
Proof.
  intros Hbelt Hroom.
  unfold tryPassOverItem, orElse, passToBelt, bind, ret, query, invoke.
  rewrite Hbelt. cbn. rewrite Hroom. reflexivity.
Qed.

Lemma X16_belt_with_room_wins_witness :
  tryPassOverItem (sampleRoot None) "shape"%string
    (sampleReceiver (Some true) (Some true) (Some true)) 0 enumDirection.left []
  = Ok (true, [(2%nat, "shape"%string)],
        [CallCanAcceptNewItem 2 enumDirection.left true;
         CallTakeNewItem 2 "shape"%string enumDirection.left]).
Proof.
  apply (X16_belt_with_room_wins (sampleRoot None) "shape"%string
           (sampleReceiver (Some true) (Some true) (Some true))
           (sampleBelt 2 true) 0 enumDirection.left []);
    reflexivity.
Defined.

Lemma takesOnlyAfterAsking_app {BaseItem : Type} (l1 l2 : list (@Call BaseItem)) :
  (forall previous, takesOnlyAfterAsking previous l2 = true) ->
  forall previous,
    takesOnlyAfterAsking previous l1 = true ->
    takesOnlyAfterAsking previous (l1 ++ l2) = true.
Proof.
  intros H2. induction l1 as [|c l1 IH]; intros previous H1.
  - apply H2.
  - cbn [takesOnlyAfterAsking app] in *.
    apply andb_true_iff in H1. destruct H1 as [Hhead Htail].
    rewrite Hhead. cbn. apply IH. exact Htail.
Qed.

Lemma tryPassOverItem_log {BaseItem World : Type}
    (root : @GameRoot BaseItem World) (it : BaseItem)
    (receiver : @Entity BaseItem World) (slotIndex : nat)
    (localDirection : enumDirection.t) (w w' : World) (result : bool)
    (log : list (@Call BaseItem)) :
  tryPassOverItem root it receiver slotIndex localDirection w = Ok (result, w', log) ->
  forallb isCapabilityCall log = true
  /\ (List.length log <= 3)%nat
  /\ (forall previous, takesOnlyAfterAsking previous log = true)
  /\ (log = [] <-> firstExposed receiver = None)
  /\ (firstExposed receiver = None -> result = false /\ w' = w).
Proof.
  destruct receiver as [u [ej st acc [belt|] [proc|] [ug|]]]; run_M; split_calls;
    intros H; injection H as <- <- <-; unfold firstExposed; cbn;
    repeat split; try discriminate; try lia; try reflexivity;
    intros; rewrite ?Nat.eqb_refl; destruct localDirection; reflexivity.
Qed.

(** X17. A handoff attempt talks to the receiver's capabilities only and
    makes at most three calls; it makes none exactly when the receiver has
    none of the three components, and then it answers false and leaves the
    store as it was. *)
Theorem X17_handoff_calls_are_few {BaseItem World : Type}
    (root : @GameRoot BaseItem World) (it : BaseItem)
    (receiver : @Entity BaseItem World) (slotIndex : nat)
    (localDirection : enumDirection.t) (w w' : World) (result : bool)
    (log : list (@Call BaseItem)) :
  tryPassOverItem root it receiver slotIndex localDirection w = Ok (result, w', log) ->
  forallb isCapabilityCall log = true
  /\ (List.length log <= 3)%nat
  /\ (log = [] <-> firstExposed receiver = None)
  /\ (firstExposed receiver = None -> result = false /\ w' = w).
Proof.
  intros Hrun.
  destruct (tryPassOverItem_log root it receiver slotIndex localDirection w w' result
              log Hrun) as (Hcap & Hlen & _ & Hnil & Hnone).
  auto.
Qed.

Lemma X17_handoff_calls_are_few_witness :
  forallb isCapabilityCall
    [CallCanAcceptNewItem 2 enumDirection.left false;
     CallTryTakeItem 2 "shape"%string 0 enumDirection.left false;
     CallTryAcceptExternalItem 2 "shape"%string 4 false] = true
  /\ (3 <= 3)%nat.
Proof.
  destruct (X17_handoff_calls_are_few (sampleRoot None) "shape"%string
              (sampleReceiver (Some false) (Some false) (Some false)) 0
              enumDirection.left [] [] false
              [CallCanAcceptNewItem 2 enumDirection.left false;
               CallTryTakeItem 2 "shape"%string 0 enumDirection.left false;
               CallTryAcceptExternalItem 2 "shape"%string 4 false]
              eq_refl) as (Hcap & Hlen & _).
  split; [exact Hcap | exact Hlen].
Defined.

Lemma forEach_log {BaseItem World A B : Type} (f : A -> @M BaseItem World B)
    (P : list (@Call BaseItem) -> Prop) :
  P [] ->
  (forall l1 l2, P l1 -> P l2 -> P (l1 ++ l2)) ->
  (forall a w b w' log, f a w = Ok (b, w', log) -> P log) ->
  forall l w r w' log, forEach f l w = Ok (r, w', log) -> P log.
Proof.
  intros Hnil Happ Hf. induction l as [|a l IH]; intros w r w' log H.
  - cbn in H. unfold ret in H. injection H as _ _ <-. exact Hnil.
  - apply forEach_cons_inv in H.
    destruct H as (b & w1 & log1 & bs & log2 & Hb & Hbs & _ & ->).
    apply Happ; [exact (Hf a w b w1 log1 Hb) | exact (IH w1 bs w' log2 Hbs)].
Qed.

(** A property of logs that holds of the empty log, is kept by joining
    logs and holds of every tick of a slot holds of every pass. *)
Lemma update_log {BaseItem World : Type}
    (root : @GameRoot BaseItem World) (globalConfig : GlobalConfig)
    (P : list (@Call BaseItem) -> Prop) :
  P [] ->
  (forall l1 l2, P l1 -> P l2 -> P (l1 ++ l2)) ->
  (forall g sc s w s' w' log,
     updateSlot root g sc s w = Ok (s', w', log) -> P log) ->
  forall allEntities w entities' w' log,
    update root globalConfig allEntities w = Ok (entities', w', log) -> P log.
Proof.
  intros Hnil Happ Hslot allEntities w entities' w' log H.
  unfold update in H. apply bind_Ok_inv in H.
  destruct H as (speed & w0 & log0 & log1 & Hspeed & Hrun & ->).
  unfold reads in Hspeed. injection Hspeed as <- <- <-. cbn [app].
  eapply forEach_log; [exact Hnil | exact Happ | | exact Hrun].
  intros e we e' we' loge He. unfold updateEntity in He.
  apply bind_Ok_inv in He. destruct He as (comp & wa & loga & logb & Hcomp & He & ->).
  destruct (ItemEjector (components e)); [|discriminate Hcomp].
  unfold deref, ret in Hcomp. injection Hcomp as <- <- <-. cbn [app].
  apply bind_Ok_inv in He. destruct He as (ss & wb & logc & logd & Hss & Hret & ->).
  unfold ret in Hret. injection Hret as _ _ <-. rewrite app_nil_r.
  eapply forEach_log; [exact Hnil | exact Happ | | exact Hss].
  intros s ws s' ws' logs Hs. eapply Hslot. exact Hs.
Qed.

Lemma updateSlot_idle {BaseItem World : Type}
    (root : @GameRoot BaseItem World) (progressGrowth : Q)
    (staticComp : option StaticMapEntityComponent)
    (slot slot' : @ItemEjectorSlot BaseItem) (w w' : World)
    (log : list (@Call BaseItem)) :
  item slot = None ->
  updateSlot root progressGrowth staticComp slot w = Ok (slot', w', log) ->
  slot' = slot /\ w' = w /\ log = [].
Proof.
  intros Hidle Hrun. unfold updateSlot in Hrun. rewrite Hidle in Hrun.
  unfold ret in Hrun. injection Hrun as <- <- <-. auto.
Qed.

Lemma updateSlot_takes_after_asking {BaseItem World : Type}
    (root : @GameRoot BaseItem World) (progressGrowth : Q)
    (staticComp : option StaticMapEntityComponent)
    (slot slot' : @ItemEjectorSlot BaseItem) (w w' : World)
    (log : list (@Call BaseItem)) :
  updateSlot root progressGrowth staticComp slot w = Ok (slot', w', log) ->
  forall previous, takesOnlyAfterAsking previous log = true.
Proof.
  intros Hrun previous.
  destruct (item slot) as [it|] eqn:Hitem.
  - pose proof (updateSlot_run root progressGrowth staticComp slot slot' it w w' log
                  Hitem Hrun) as H.
    cbv zeta in H.
    destruct H as [(_ & _ & ->) | (sc & tile & d & _ & _ & H)]; [reflexivity|].
    destruct H as [(_ & _ & _ & ->) | (target & _ & H)]; [reflexivity|].
    destruct H as [(_ & _ & _ & ->) | (acc & ts & lt & ld & _ & _ & _ & _ & H)];
      [reflexivity|].
    destruct H as [(_ & _ & _ & ->) | (ms & _ & H)]; [reflexivity|].
    destruct H as [(_ & _ & _ & ->) | (result & passLog & _ & Hpass & _ & ->)];
      [reflexivity|].
    cbn. apply tryPassOverItem_log in Hpass.
    destruct Hpass as (_ & _ & Htakes & _). apply Htakes.
  - destruct (updateSlot_idle root progressGrowth staticComp slot slot' w w' log
                Hitem Hrun) as (_ & _ & ->).
    reflexivity.
Qed.

(** X18. In a whole pass of update no receiver is made to take an item
    it was not asked about: every takeNewItem in the call log comes right
    after a canAcceptNewItem on the same receiver, for the same direction,
    that answered true. *)
Theorem X18_pass_takes_only_after_asking {BaseItem World : Type}
    (root : @GameRoot BaseItem World) (globalConfig : GlobalConfig)
    (allEntities entities' : list (@Entity BaseItem World)) (w w' : World)
    (log : list (@Call BaseItem)) :
  update root globalConfig allEntities w = Ok (entities', w', log) ->
  takesOnlyAfterAsking None log = true.
Proof.
  intros Hrun.
  apply (update_log root globalConfig
           (fun l => forall previous, takesOnlyAfterAsking previous l = true))
    with (allEntities := allEntities) (w := w) (entities' := entities') (w' := w').
  - intros previous. reflexivity.
  - intros l1 l2 H1 H2 previous.
    apply takesOnlyAfterAsking_app; [exact H2 | apply H1].
  - intros g sc s ws s' ws' logs Hs.
    exact (updateSlot_takes_after_asking root g sc s s' ws ws' logs Hs).
  - exact Hrun.
Qed.

Lemma X18_pass_takes_only_after_asking_witness :
  takesOnlyAfterAsking None
    [CallGetTileContent (mkVector 1 0);
     CallFindMatchingSlot 2 (mkVector 0 0) enumDirection.right;
     CallCanAcceptItem 2 0 "shape"%string;
     CallCanAcceptNewItem 2 enumDirection.left true;
     CallTakeNewItem 2 "shape"%string enumDirection.left] = true.
Proof.
  apply (X18_pass_takes_only_after_asking
           (sampleRoot (Some (sampleReceiver (Some true) None None))) sampleConfig
           [sampleEmitter (Some "shape"%string) (9 # 10)] [sampleEmitter None 1]
           [] [(2%nat, "shape"%string)]).
  vm_compute. reflexivity.
Defined.

Lemma length_filter_sum {A : Type} (p : A -> bool) (l : list A) :
  List.length (filter p l) = list_sum (List.map (fun a => if p a then 1%nat else 0%nat) l).
Proof.
  induction l as [|a l IH]; [reflexivity|].
  cbn. destruct (p a); cbn; rewrite IH; reflexivity.
Qed.

Lemma filter_none {A : Type} (p : A -> bool) (l : list A) :
  existsb p l = false -> filter p l = [].
Proof.
  induction l as [|a l IH]; [reflexivity|].
  cbn. destruct (p a); [discriminate|]. exact IH.
Qed.

Lemma forEach_count {BaseItem World A B : Type} (f : A -> @M BaseItem World B)
    (p : @Call BaseItem -> bool) (before : A -> nat) (after : B -> nat) :
  (forall a w b w' log,
     f a w = Ok (b, w', log) ->
     (List.length (filter p log) + after b = before a)%nat) ->
  forall l w r w' log,
    forEach f l w = Ok (r, w', log) ->
    (List.length (filter p log) + list_sum (List.map after r)
     = list_sum (List.map before l))%nat.
Proof.
  intros Hf. induction l as [|a l IH]; intros w r w' log H.
  - cbn in H. unfold ret in H. injection H as <- _ <-. reflexivity.
  - apply forEach_cons_inv in H.
    destruct H as (b & w1 & log1 & bs & log2 & Hb & Hbs & -> & ->).
    specialize (Hf a w b w1 log1 Hb). specialize (IH w1 bs w' log2 Hbs).
    rewrite filter_app, length_app.
    change (list_sum (List.map after (b :: bs)))
      with (after b + list_sum (List.map after bs))%nat.
    change (list_sum (List.map before (a :: l)))
      with (before a + list_sum (List.map before l))%nat.
    lia.
Qed.

Lemma forEach_count_le {BaseItem World A B : Type} (f : A -> @M BaseItem World B)
    (p : @Call BaseItem -> bool) (bound : A -> nat) :
  (forall a w b w' log,
     f a w = Ok (b, w', log) -> (List.length (filter p log) <= bound a)%nat) ->
  forall l w r w' log,
    forEach f l w = Ok (r, w', log) ->
    (List.length (filter p log) <= list_sum (List.map bound l))%nat.
Proof.
  intros Hf. induction l as [|a l IH]; intros w r w' log H.
  - cbn in H. unfold ret in H. injection H as _ _ <-. cbn. lia.
  - apply forEach_cons_inv in H.
    destruct H as (b & w1 & log1 & bs & log2 & Hb & Hbs & _ & ->).
    specialize (Hf a w b w1 log1 Hb). specialize (IH w1 bs w' log2 Hbs).
    rewrite filter_app, length_app.
    change (list_sum (List.map bound (a :: l)))
      with (bound a + list_sum (List.map bound l))%nat.
    lia.
Qed.

Lemma updateSlot_accepts_count {BaseItem World : Type}
    (root : @GameRoot BaseItem World) (progressGrowth : Q)
    (staticComp : option StaticMapEntityComponent)
    (slot slot' : @ItemEjectorSlot BaseItem) (w w' : World)
    (log : list (@Call BaseItem)) :
  updateSlot root progressGrowth staticComp slot w = Ok (slot', w', log) ->
  (List.length (filter accepting log) + (if holdsItem slot' then 1 else 0)
   = if holdsItem slot then 1 else 0)%nat.
Proof.
  intros Hrun. unfold holdsItem.
  destruct (item slot) as [it|] eqn:Hitem.
  - destruct (updateSlot_outcome root progressGrowth staticComp slot slot' it w w' log
                Hitem Hrun) as (_ & _ & _ & Hcases).
    destruct Hcases as [[Hkept Hnone] | (Hcleared & _ & _ & c & r & Hc & _)].
    + rewrite Hkept, (filter_none _ _ Hnone). reflexivity.
    + rewrite Hcleared, Hc. reflexivity.
  - destruct (updateSlot_idle root progressGrowth staticComp slot slot' w w' log
                Hitem Hrun) as (-> & _ & ->).
    rewrite Hitem. reflexivity.
Qed.

Lemma capability_calls_no_grid_query {BaseItem : Type} (log : list (@Call BaseItem)) :
  forallb isCapabilityCall log = true -> filter isGridQuery log = [].
Proof.
  induction log as [|c log IH]; [reflexivity|].
  cbn. intros H. apply andb_true_iff in H. destruct H as [Hc Hrest].
  destruct c; cbn in *; try discriminate; auto.
Qed.

Lemma updateSlot_grid_queries {BaseItem World : Type}
    (root : @GameRoot BaseItem World) (progressGrowth : Q)
    (staticComp : option StaticMapEntityComponent)
    (slot slot' : @ItemEjectorSlot BaseItem) (w w' : World)
    (log : list (@Call BaseItem)) :
  updateSlot root progressGrowth staticComp slot w = Ok (slot', w', log) ->
  (List.length (filter isGridQuery log) <= if holdsItem slot then 1 else 0)%nat.
Proof.
  intros Hrun. unfold holdsItem.
  destruct (item slot) as [it|] eqn:Hitem.
  - pose proof (updateSlot_run root progressGrowth staticComp slot slot' it w w' log
                  Hitem Hrun) as H.
    cbv zeta in H.
    destruct H as [(_ & _ & ->) | (sc & tile & d & _ & _ & H)]; [cbn; lia|].
    destruct H as [(_ & _ & _ & ->) | (target & _ & H)]; [cbn; lia|].
    destruct H as [(_ & _ & _ & ->) | (acc & ts & lt & ld & _ & _ & _ & _ & H)];
      [cbn; lia|].
    destruct H as [(_ & _ & _ & ->) | (ms & _ & H)]; [cbn; lia|].
    destruct H as [(_ & _ & _ & ->) | (result & passLog & _ & Hpass & _ & ->)];
      [cbn; lia|].
    apply tryPassOverItem_log in Hpass. destruct Hpass as (Hcap & _).
    cbn. rewrite (capability_calls_no_grid_query _ Hcap). cbn. lia.
  - destruct (updateSlot_idle root progressGrowth staticComp slot slot' w w' log
                Hitem Hrun) as (_ & _ & ->).
    cbn. lia.
Qed.

Lemma update_entities_inv {BaseItem World : Type}
    (root : @GameRoot BaseItem World) (globalConfig : GlobalConfig)
    (allEntities entities' : list (@Entity BaseItem World)) (w w' : World)
    (log : list (@Call BaseItem)) :
  update root globalConfig allEntities w = Ok (entities', w', log) ->
  forEach (updateEntity root (progressGrowthAt root globalConfig w)) allEntities w
  = Ok (entities', w', log).
Proof.
  intros H. unfold update in H. apply bind_Ok_inv in H.
  destruct H as (speed & w0 & log0 & log1 & Hspeed & Hrun & ->).
  unfold reads in Hspeed. injection Hspeed as <- <- <-. exact Hrun.
Qed.

Lemma updateEntity_inv {BaseItem World : Type}
    (root : @GameRoot BaseItem World) (progressGrowth : Q)
    (e e' : @Entity BaseItem World) (w w' : World) (log : list (@Call BaseItem)) :
  updateEntity root progressGrowth e w = Ok (e', w', log) ->
  exists ejectorComp ss,
    ItemEjector (components e) = Some ejectorComp
    /\ forEach (updateSlot root progressGrowth (StaticMapEntity (components e)))
         (slots ejectorComp) w = Ok (ss, w', log)
    /\ e' = setSlots e ss.
Proof.
  intros He. unfold updateEntity in He.
  apply bind_Ok_inv in He. destruct He as (comp & wa & loga & logb & Hcomp & He & ->).
  destruct (ItemEjector (components e)) as [comp0|]; [|discriminate Hcomp].
  unfold deref, ret in Hcomp. injection Hcomp as <- <- <-. cbn [app].
  apply bind_Ok_inv in He. destruct He as (ss & wb & logc & logd & Hss & Hret & ->).
  unfold ret in Hret. injection Hret as <- <- <-. rewrite app_nil_r.
  exists comp0, ss. auto.
Qed.

(** X19. A pass of update asks the grid at most once for each slot that
    holds an item when the pass starts: the number of getTileContent calls
    in the log is at most the number of held items. *)
Theorem X19_one_grid_query_per_held_item {BaseItem World : Type}
    (root : @GameRoot BaseItem World) (globalConfig : GlobalConfig)
    (allEntities entities' : list (@Entity BaseItem World)) (w w' : World)
    (log : list (@Call BaseItem)) :
  update root globalConfig allEntities w = Ok (entities', w', log) ->
  (List.length (filter isGridQuery log) <= heldByAll allEntities)%nat.
Proof.
  intros Hrun. apply update_entities_inv in Hrun. unfold heldByAll.
  eapply forEach_count_le; [|exact Hrun].
  intros e we e' we' loge He.
  apply updateEntity_inv in He. destruct He as (comp & ss & Hcomp & Hss & _).
  unfold heldBy. rewrite Hcomp, (length_filter_sum holdsItem).
  eapply forEach_count_le; [|exact Hss].
  intros s ws s' ws' logs Hs. eapply updateSlot_grid_queries. exact Hs.
Qed.

Lemma X19_one_grid_query_per_held_item_witness :
  (List.length
     (filter isGridQuery
        [CallGetTileContent (mkVector 1 0);
         CallFindMatchingSlot 2 (mkVector 0 0) enumDirection.right;
         CallCanAcceptItem 2 0 "shape"%string;
         CallCanAcceptNewItem 2 enumDirection.left true;
         CallTakeNewItem 2 "shape"%string enumDirection.left])
   <= heldByAll [@sampleEmitter (Some "shape"%string) (9 # 10)])%nat.
Proof.
  apply (X19_one_grid_query_per_held_item
           (sampleRoot (Some (sampleReceiver (Some true) None None))) sampleConfig
           [sampleEmitter (Some "shape"%string) (9 # 10)] [sampleEmitter None 1]
           [] [(2%nat, "shape"%string)]).
  vm_compute. reflexivity.
Defined.

Lemma update_accepts_count {BaseItem World : Type}
    (root : @GameRoot BaseItem World) (globalConfig : GlobalConfig)
    (allEntities entities' : list (@Entity BaseItem World)) (w w' : World)
    (log : list (@Call BaseItem)) :
  update root globalConfig allEntities w = Ok (entities', w', log) ->
  (List.length (filter accepting log) + heldByAll entities'
   = heldByAll allEntities)%nat.
Proof.
  intros Hrun. apply update_entities_inv in Hrun. unfold heldByAll.
  eapply forEach_count; [|exact Hrun].
  intros e we e' we' loge He.
  apply updateEntity_inv in He. destruct He as (comp & ss & Hcomp & Hss & ->).
  unfold heldBy. rewrite Hcomp. cbn. rewrite !(length_filter_sum holdsItem).
  eapply forEach_count; [|exact Hss].
  intros s ws s' ws' logs Hs. eapply updateSlot_accepts_count. exact Hs.
Qed.

(** X20. A pass of update neither loses nor duplicates items: the
    number of items held by the slots before the pass is the number held
    after it plus the number of accepting calls in its log. *)
Theorem X20_pass_conserves_items {BaseItem World : Type}
    (root : @GameRoot BaseItem World) (globalConfig : GlobalConfig)
    (allEntities entities' : list (@Entity BaseItem World)) (w w' : World)
    (log : list (@Call BaseItem)) :
  update root globalConfig allEntities w = Ok (entities', w', log) ->
  (List.length (filter accepting log) + heldByAll entities'
   = heldByAll allEntities)%nat.
Proof.
  intros Hrun. exact (update_accepts_count root globalConfig _ _ _ _ _ Hrun).
Qed.

Lemma X20_pass_conserves_items_witness :
  (List.length
     (filter accepting
        [CallGetTileContent (mkVector 1 0);
         CallFindMatchingSlot 2 (mkVector 0 0) enumDirection.right;
         CallCanAcceptItem 2 0 "shape"%string;
         CallCanAcceptNewItem 2 enumDirection.left true;
         CallTakeNewItem 2 "shape"%string enumDirection.left])
   + heldByAll [@sampleEmitter None 1]
   = heldByAll [@sampleEmitter (Some "shape"%string) (9 # 10)])%nat.
Proof.
  apply (X20_pass_conserves_items
           (sampleRoot (Some (sampleReceiver (Some true) None None))) sampleConfig
           [sampleEmitter (Some "shape"%string) (9 # 10)] [sampleEmitter None 1]
           [] [(2%nat, "shape"%string)]).
  vm_compute. reflexivity.
Defined.


(** X21. The tile a slot ejects to is a direct neighbour of the slot's
    own world tile: it lies one step from it in the slot's world direction,
    so it is never the slot's tile itself and never a diagonal one. *)
Theorem X21_target_is_a_neighbour {BaseItem : Type}
    (staticComp : StaticMapEntityComponent) (slot : @ItemEjectorSlot BaseItem)
    (tile : Vector) (d : enumDirection.t) :
  ejectTarget staticComp slot = Ok (tile, d) ->
  exists slotTile,
    StaticMapEntityComponent.localTileToWorld staticComp (pos slot) = Ok slotTile
    /\ StaticMapEntityComponent.localDirectionToWorld staticComp (direction slot) = Ok d
    /\ tile = Vector.add slotTile (enumDirectionToVector d)
    /\ tileDistance tile slotTile = 1
    /\ tile <> slotTile.
Proof.
  unfold ejectTarget. intros H.
  destruct (StaticMapEntityComponent.localTileToWorld staticComp (pos slot))
    as [slotTile|]; [|discriminate H].
  destruct (StaticMapEntityComponent.localDirectionToWorld staticComp (direction slot))
    as [d'|]; [|discriminate H].
  cbn in H. injection H as <- <-.
  exists slotTile. repeat split.
  - destruct slotTile as [sx sy], d'; unfold tileDistance; cbn; lia.
  - destruct slotTile as [sx sy], d'; cbn; intros E; injection E; lia.
Qed.

Lemma X21_target_is_a_neighbour_witness :
  exists slotTile,
    StaticMapEntityComponent.localTileToWorld (sampleStatic (mkVector 4 4) 180)
      (pos (sampleSlot (Some "shape"%string) 1)) = Ok slotTile
    /\ StaticMapEntityComponent.localDirectionToWorld (sampleStatic (mkVector 4 4) 180)
         (direction (sampleSlot (Some "shape"%string) 1)) = Ok enumDirection.left
    /\ mkVector 3 4 = Vector.add slotTile (enumDirectionToVector enumDirection.left)
    /\ tileDistance (mkVector 3 4) slotTile = 1
    /\ mkVector 3 4 <> slotTile.
Proof.
  apply (X21_target_is_a_neighbour (sampleStatic (mkVector 4 4) 180)
           (sampleSlot (Some "shape"%string) 1) (mkVector 3 4) enumDirection.left).
  reflexivity.
Defined.

(** X22. drawSingleEntity draws the items the slots hold, one call for
    each, in slot order, and nothing for an idle slot, for an entity with
    rotation 0, 90, 180 or 270. *)
Theorem X22_draws_the_held_items {BaseItem World : Type}
    (globalConfig : GlobalConfig) (entity : @Entity BaseItem World)
    (ejectorComp : @ItemEjectorComponent BaseItem)
    (staticComp : StaticMapEntityComponent) :
  ItemEjector (components entity) = Some ejectorComp ->
  StaticMapEntity (components entity) = Some staticComp ->
  validRotation (rotation staticComp) ->
  exists calls,
    drawSingleEntity globalConfig entity = Ok calls
    /\ List.map drawnItem calls
       = flat_map (fun s => match item s with Some it => [it] | None => [] end)
           (slots ejectorComp)
    /\ List.length calls = heldBy entity.
Proof.
  intros Hcomp Hstatic Hvalid.
  destruct (drawSlots_items globalConfig staticComp (slots ejectorComp) Hvalid)
    as (calls & Hcalls & Hitems).
  exists calls. unfold drawSingleEntity, heldBy. rewrite Hcomp, Hstatic.
  split; [exact Hcalls|]. split; [exact Hitems|].
  rewrite <- (length_map drawnItem), Hitems. unfold holdsItem.
  clear. induction (slots ejectorComp) as [|s ss IH]; [reflexivity|].
  cbn. destruct (item s); cbn; rewrite IH; reflexivity.
Qed.

Lemma X22_draws_the_held_items_witness :
  exists calls,
    drawSingleEntity sampleConfig (sampleEmitter (Some "shape"%string) (1 # 2))
    = Ok calls
    /\ List.map drawnItem calls = ["shape"%string].
Proof.
  destruct (X22_draws_the_held_items sampleConfig
              (sampleEmitter (Some "shape"%string) (1 # 2))
              (mkItemEjectorComponent [sampleSlot (Some "shape"%string) (1 # 2)])
              (sampleStatic (mkVector 0 0) 0))
    as (calls & Hcalls & Hitems & _).
  - reflexivity.
  - reflexivity.
  - left; reflexivity.
  - exists calls. split; [exact Hcalls | exact Hitems].
Defined.

(** Where a slot that holds an item is drawn, in terms of the slot's world
    tile and world direction. *)
Lemma drawSlot_position {BaseItem : Type} (globalConfig : GlobalConfig)
    (staticComp : StaticMapEntityComponent) (slot : @ItemEjectorSlot BaseItem)
    (it : BaseItem) :
  validRotation (rotation staticComp) ->
  item slot = Some it ->
  exists slotTile d,
    StaticMapEntityComponent.localTileToWorld staticComp (pos slot) = Ok slotTile
    /\ StaticMapEntityComponent.localDirectionToWorld staticComp (direction slot) = Ok d
    /\ drawSlot globalConfig (Some staticComp) slot
       = Ok [mkDrawCall it
               ((inject_Z (x (origin staticComp))
                 + inject_Z (x slotTile - x (origin staticComp)) + (1 # 2)
                 + inject_Z (x (enumDirectionToVector d)) * (1 # 2) * progress slot)
                * gc_tileSize globalConfig)%Q
               ((inject_Z (y (origin staticComp))
                 + inject_Z (y slotTile - y (origin staticComp)) + (1 # 2)
                 + inject_Z (y (enumDirectionToVector d)) * (1 # 2) * progress slot)
                * gc_tileSize globalConfig)%Q].
Proof.
  intros Hvalid Hitem.
  unfold drawSlot, StaticMapEntityComponent.localTileToWorld,
    StaticMapEntityComponent.localDirectionToWorld,
    StaticMapEntityComponent.applyRotationToVector.
  rewrite Hitem.
  destruct Hvalid as [H | [H | [H | H]]]; rewrite H; cbn;
    do 2 eexists; (split; [reflexivity|]); (split; [reflexivity|]);
    cbn; repeat f_equal; lia.
Qed.

Lemma half_step_within (a p : Q) (d : enumDirection.t) :
  (0 <= p)%Q -> (p <= 1)%Q ->
  (a <= a + (1 # 2) + inject_Z (x (enumDirectionToVector d)) * (1 # 2) * p)%Q
  /\ (a + (1 # 2) + inject_Z (x (enumDirectionToVector d)) * (1 # 2) * p <= a + 1)%Q
  /\ (a <= a + (1 # 2) + inject_Z (y (enumDirectionToVector d)) * (1 # 2) * p)%Q
  /\ (a + (1 # 2) + inject_Z (y (enumDirectionToVector d)) * (1 # 2) * p <= a + 1)%Q.
Proof.
  intros H0 H1. destruct d; cbn [enumDirectionToVector x y];
    change (inject_Z 0) with 0%Q; change (inject_Z 1) with 1%Q;
    change (inject_Z (-1)) with (-1 # 1)%Q; repeat split; lra.
Qed.

Lemma inject_Z_origin_offset (o t : Z) :
  (inject_Z o + inject_Z (t - o) == inject_Z t)%Q.
Proof.
  rewrite <- inject_Z_plus. replace (o + (t - o)) with t by lia. reflexivity.
Qed.

(** X23. An item is drawn inside the tile of its slot: for rotation 0,
    90, 180 or 270, a progress between 0 and 1 and a tile size that is not
    negative, both pixel coordinates of the draw call lie between the tile's
    low edge, slotTile * tileSize, and its high edge,
    (slotTile + 1) * tileSize. *)
Theorem X23_item_drawn_inside_its_tile {BaseItem : Type} (globalConfig : GlobalConfig)
    (staticComp : StaticMapEntityComponent) (slot : @ItemEjectorSlot BaseItem)
    (it : BaseItem) :
  validRotation (rotation staticComp) ->
  item slot = Some it ->
  (0 <= progress slot)%Q -> (progress slot <= 1)%Q ->
  (0 <= gc_tileSize globalConfig)%Q ->
  exists slotTile call,
    StaticMapEntityComponent.localTileToWorld staticComp (pos slot) = Ok slotTile
    /\ drawSlot globalConfig (Some staticComp) slot = Ok [call]
    /\ (inject_Z (x slotTile) * gc_tileSize globalConfig <= worldX call)%Q
    /\ (worldX call <= (inject_Z (x slotTile) + 1) * gc_tileSize globalConfig)%Q
    /\ (inject_Z (y slotTile) * gc_tileSize globalConfig <= worldY call)%Q
    /\ (worldY call <= (inject_Z (y slotTile) + 1) * gc_tileSize globalConfig)%Q.
Proof.
  intros Hvalid Hitem H0 H1 Hsize.
  destruct (drawSlot_position globalConfig staticComp slot it Hvalid Hitem)
    as (slotTile & d & Htile & _ & Hdraw).
  exists slotTile. eexists. split; [exact Htile|]. split; [exact Hdraw|].
  cbn [worldX worldY].
  destruct (half_step_within (inject_Z (x slotTile)) (progress slot) d H0 H1)
    as (Hx0 & Hx1 & _).
  destruct (half_step_within (inject_Z (y slotTile)) (progress slot) d H0 H1)
    as (_ & _ & Hy0 & Hy1).
  rewrite !inject_Z_origin_offset.
  repeat split; apply Qmult_le_compat_r; assumption.
Qed.

Lemma X23_item_drawn_inside_its_tile_witness :
  exists slotTile call,
    StaticMapEntityComponent.localTileToWorld (sampleStatic (mkVector 4 4) 90)
      (pos (sampleSlot (Some "shape"%string) (1 # 2))) = Ok slotTile
    /\ drawSlot sampleConfig (Some (sampleStatic (mkVector 4 4) 90))
         (sampleSlot (Some "shape"%string) (1 # 2)) = Ok [call]
    /\ (inject_Z (x slotTile) * gc_tileSize sampleConfig <= worldX call)%Q
    /\ (worldX call <= (inject_Z (x slotTile) + 1) * gc_tileSize sampleConfig)%Q
    /\ (inject_Z (y slotTile) * gc_tileSize sampleConfig <= worldY call)%Q
    /\ (worldY call <= (inject_Z (y slotTile) + 1) * gc_tileSize sampleConfig)%Q.
Proof.
  apply (X23_item_drawn_inside_its_tile sampleConfig (sampleStatic (mkVector 4 4) 90)
           (sampleSlot (Some "shape"%string) (1 # 2)) "shape"%string).
  - right; left; reflexivity.
  - reflexivity.
  - discriminate.
  - discriminate.
  - discriminate.
Defined.

(** X24. An item is drawn on its way to the tile it will be handed to:
    for rotation 0, 90, 180 or 270 the draw position is the centre of the
    slot's tile moved by progress / 2 of the step to the target tile of
    update, times the tile size; at progress 0 it is the centre of the
    slot's tile, at progress 1 the middle of the edge shared with the
    target tile. *)
Theorem X24_item_drawn_towards_target {BaseItem : Type} (globalConfig : GlobalConfig)
    (staticComp : StaticMapEntityComponent) (slot : @ItemEjectorSlot BaseItem)
    (it : BaseItem) :
  validRotation (rotation staticComp) ->
  item slot = Some it ->
  exists slotTile target d call,
    StaticMapEntityComponent.localTileToWorld staticComp (pos slot) = Ok slotTile
    /\ ejectTarget staticComp slot = Ok (target, d)
    /\ drawSlot globalConfig (Some staticComp) slot = Ok [call]
    /\ (worldX call
        == (inject_Z (x slotTile) + (1 # 2)
            + progress slot * (1 # 2) * inject_Z (x target - x slotTile))
           * gc_tileSize globalConfig)%Q
    /\ (worldY call
        == (inject_Z (y slotTile) + (1 # 2)
            + progress slot * (1 # 2) * inject_Z (y target - y slotTile))
           * gc_tileSize globalConfig)%Q.
Proof.
  intros Hvalid Hitem.
  destruct (drawSlot_position globalConfig staticComp slot it Hvalid Hitem)
    as (slotTile & d & Htile & Hdir & Hdraw).
  exists slotTile, (Vector.add slotTile (enumDirectionToVector d)), d.
  eexists. split; [exact Htile|].
  split; [unfold ejectTarget; rewrite Htile, Hdir; reflexivity|].
  split; [exact Hdraw|].
  cbn [worldX worldY]. unfold Vector.add. cbn [x y].
  replace (x slotTile + x (enumDirectionToVector d) - x slotTile)
    with (x (enumDirectionToVector d)) by lia.
  replace (y slotTile + y (enumDirectionToVector d) - y slotTile)
    with (y (enumDirectionToVector d)) by lia.
  split.
  - rewrite <- (inject_Z_origin_offset (x (origin staticComp)) (x slotTile)). ring.
  - rewrite <- (inject_Z_origin_offset (y (origin staticComp)) (y slotTile)). ring.
Qed.

Lemma X24_item_drawn_towards_target_witness :
  exists slotTile target d call,
    StaticMapEntityComponent.localTileToWorld (sampleStatic (mkVector 4 4) 90)
      (pos (sampleSlot (Some "shape"%string) 1)) = Ok slotTile
    /\ ejectTarget (sampleStatic (mkVector 4 4) 90) (sampleSlot (Some "shape"%string) 1)
       = Ok (target, d)
    /\ drawSlot sampleConfig (Some (sampleStatic (mkVector 4 4) 90))
         (sampleSlot (Some "shape"%string) 1) = Ok [call]
    /\ (worldX call
        == (inject_Z (x slotTile) + (1 # 2)
            + progress (sampleSlot (Some "shape"%string) 1) * (1 # 2)
              * inject_Z (x target - x slotTile))
           * gc_tileSize sampleConfig)%Q
    /\ (worldY call
        == (inject_Z (y slotTile) + (1 # 2)
            + progress (sampleSlot (Some "shape"%string) 1) * (1 # 2)
              * inject_Z (y target - y slotTile))
           * gc_tileSize sampleConfig)%Q.
Proof.
  apply (X24_item_drawn_towards_target sampleConfig (sampleStatic (mkVector 4 4) 90)
           (sampleSlot (Some "shape"%string) 1) "shape"%string).
  - right; left; reflexivity.
  - reflexivity.
Defined.

Lemma drawSlots_idle {BaseItem : Type} (globalConfig : GlobalConfig)
    (staticComp : option StaticMapEntityComponent)
    (ss : list (@ItemEjectorSlot BaseItem)) :
  forallb (fun s => negb (holdsItem s)) ss = true ->
  drawSlots globalConfig staticComp ss = Ok [].
Proof.
  induction ss as [|s ss IH]; [reflexivity|].
  cbn [forallb]. intros H. apply andb_true_iff in H. destruct H as [Hs Hss].
  cbn [drawSlots]. unfold drawSlot, holdsItem in *.
  destruct (item s); [discriminate Hs|].
  cbn. rewrite (IH Hss). reflexivity.
Qed.

(** X25. An entity without StaticMapEntity can be drawn exactly when it
    has an ItemEjector whose slots are all idle, and nothing is drawn then;
    a held item makes drawSingleEntity throw, and so does a missing
    ItemEjector. *)
Theorem X25_draw_without_static {BaseItem World : Type}
    (globalConfig : GlobalConfig) (entity : @Entity BaseItem World) :
  StaticMapEntity (components entity) = None ->
  (isOk (drawSingleEntity globalConfig entity) = true
   <-> exists ejectorComp,
         ItemEjector (components entity) = Some ejectorComp
         /\ forallb (fun s => negb (holdsItem s)) (slots ejectorComp) = true)
  /\ (isOk (drawSingleEntity globalConfig entity) = true ->
      drawSingleEntity globalConfig entity = Ok []).
Proof.
  intros Hstatic. unfold drawSingleEntity. rewrite Hstatic.
  destruct (ItemEjector (components entity)) as [comp|].
  - assert (Hiff : isOk (drawSlots globalConfig None (slots comp)) = true
                   <-> forallb (fun s => negb (holdsItem s)) (slots comp) = true).
    { split.
      - induction (slots comp) as [|s ss IH]; [reflexivity|].
        cbn [drawSlots forallb]. unfold drawSlot, holdsItem.
        destruct (item s); [discriminate|]. cbn.
        destruct (drawSlots globalConfig None ss); [|discriminate].
        intros _. apply IH. reflexivity.
      - intros H. rewrite (drawSlots_idle _ _ _ H). reflexivity. }
    split.
    + rewrite Hiff. split.
      * intros H. exists comp. auto.
      * intros (comp' & E & H). injection E as <-. exact H.
    + intros H. apply Hiff in H. apply drawSlots_idle. exact H.
  - split; [|discriminate].
    split; [discriminate|]. intros (comp' & E & _). discriminate E.
Qed.

Lemma X25_draw_without_static_witness :
  drawSingleEntity sampleConfig (sampleBareEmitter None) = Ok [].
Proof.
  apply (proj2 (X25_draw_without_static sampleConfig (sampleBareEmitter None) eq_refl)).
  reflexivity.
Defined.

Lemma updateSlot_refused_store {BaseItem World : Type}
    (root : @GameRoot BaseItem World) (progressGrowth : Q)
    (staticComp : option StaticMapEntityComponent)
    (slot slot' : @ItemEjectorSlot BaseItem) (w w' : World)
    (log : list (@Call BaseItem)) :
  (forall tile target,
     getTileContent root w tile = Some target -> refusalKeepsStore target) ->
  updateSlot root progressGrowth staticComp slot w = Ok (slot', w', log) ->
  existsb accepting log = false ->
  w' = w.
Proof.
  intros Hcontract Hrun Hnone.
  destruct (item slot) as [it|] eqn:Hitem.
  - pose proof (updateSlot_run root progressGrowth staticComp slot slot' it w w' log
                  Hitem Hrun) as H.
    cbv zeta in H.
    destruct H as [(_ & -> & _) | (sc & tile & d & _ & _ & H)]; [reflexivity|].
    destruct H as [(_ & _ & -> & _) | (target & Hgrid & H)]; [reflexivity|].
    destruct H as [(_ & _ & -> & _) | (acc & ts & lt & ld & _ & _ & _ & _ & H)];
      [reflexivity|].
    destruct H as [(_ & _ & -> & _) | (ms & _ & H)]; [reflexivity|].
    destruct H as [(_ & _ & -> & _) | (result & passLog & _ & Hpass & _ & ->)];
      [reflexivity|].
    cbn in Hnone.
    destruct (tryPassOverItem_returns root it target (index ms) (acceptedDirection ms) w)
      as (r & w2 & l2 & Hpass' & _ & _ & _ & _ & _ & Hresult & _).
    rewrite Hpass in Hpass'. injection Hpass' as Hr Hw Hl.
    rewrite <- Hl, Hnone in Hresult. rewrite <- Hresult in Hr. subst result.
    eapply tryPassOverItem_refused_store; [|exact Hpass].
    exact (Hcontract tile target Hgrid).
  - destruct (updateSlot_idle root progressGrowth staticComp slot slot' w w' log
                Hitem Hrun) as (_ & -> & _).
    reflexivity.
Qed.

Lemma forEach_frame {BaseItem World A B : Type} (f : A -> @M BaseItem World B)
    (p : @Call BaseItem -> bool) (w : World) :
  (forall a b w' log, f a w = Ok (b, w', log) -> existsb p log = false -> w' = w) ->
  forall l r w' log,
    forEach f l w = Ok (r, w', log) -> existsb p log = false -> w' = w.
Proof.
  intros Hf. induction l as [|a l IH]; intros r w' log H Hnone.
  - cbn in H. unfold ret in H. injection H as _ <- _. reflexivity.
  - apply forEach_cons_inv in H.
    destruct H as (b & w1 & log1 & bs & log2 & Hb & Hbs & _ & ->).
    rewrite existsb_app in Hnone. apply orb_false_iff in Hnone.
    destruct Hnone as [Hn1 Hn2].
    pose proof (Hf a b w1 log1 Hb Hn1) as ->.
    exact (IH bs w' log2 Hbs Hn2).
Qed.

(** X26. Backpressure changes nothing outside the slots: when the
    receivers on the grid keep the store on a refusing call and a pass of
    update returns with no accepting call in its log, the store is the one
    the pass started in and the slots hold as many items as before. *)
Theorem X26_pass_without_accept_keeps_store {BaseItem World : Type}
    (root : @GameRoot BaseItem World) (globalConfig : GlobalConfig)
    (allEntities entities' : list (@Entity BaseItem World)) (w w' : World)
    (log : list (@Call BaseItem)) :
  (forall tile target,
     getTileContent root w tile = Some target -> refusalKeepsStore target) ->
  update root globalConfig allEntities w = Ok (entities', w', log) ->
  existsb accepting log = false ->
  w' = w /\ heldByAll entities' = heldByAll allEntities.
Proof.
  intros Hcontract Hrun Hnone. split.
  - apply update_entities_inv in Hrun.
    eapply (forEach_frame _ accepting w); [|exact Hrun | exact Hnone].
    intros e e' we' loge He Hne.
    apply updateEntity_inv in He. destruct He as (comp & ss & _ & Hss & _).
    eapply (forEach_frame _ accepting w); [|exact Hss | exact Hne].
    intros s s' ws' logs Hs Hns.
    exact (updateSlot_refused_store root _ _ s s' w ws' logs Hcontract Hs Hns).
  - pose proof (update_accepts_count root globalConfig allEntities entities' w w' log
                  Hrun) as Hcount.
    rewrite (filter_none _ _ Hnone) in Hcount. exact Hcount.
Qed.

Lemma X26_pass_without_accept_keeps_store_witness :
  @nil (nat * string) = []
  /\ heldByAll [@sampleEmitter (Some "shape"%string) 1]
     = heldByAll [@sampleEmitter (Some "shape"%string) (9 # 10)].
Proof.
  apply (X26_pass_without_accept_keeps_store
           (sampleRoot (Some (sampleReceiver (Some false) None None))) sampleConfig
           [sampleEmitter (Some "shape"%string) (9 # 10)]
           [sampleEmitter (Some "shape"%string) 1] [] []
           [CallGetTileContent (mkVector 1 0);
            CallFindMatchingSlot 2 (mkVector 0 0) enumDirection.right;
            CallCanAcceptItem 2 0 "shape"%string;
            CallCanAcceptNewItem 2 enumDirection.left false]).
  - intros tile target H. cbn in H.
    destruct ((x tile =? 1) && (y tile =? 0)); [|discriminate H].
    injection H as <-. split; intros c Hc; discriminate Hc.
  - vm_compute. reflexivity.
  - reflexivity.
Defined.
